(** * forestd and fvpn: the control daemon and the session gate

    A shallow embedding of

    - [forestd/main.go]: the loopback daemon ([handleRequest], [execute],
      [isActiveWireGuard]);
    - [src/actions/location.go]: [IsPremiumLocation];
    - [src/main.go]: the body of the [state up] action up to the call of
      [state.SetUp].

    Go strings are byte strings ([string]); Go's [int] and [time.Duration]
    are [Z]; [float64] is [spec_float] at precision 53, the IEEE 754 binary64
    model of the standard library.  Calls that leave the process (reading a
    frame, starting a tool, writing a response) take their answer from an
    explicit environment and leave an event in a trace; the goroutines of
    several connections are the merges of their traces. *)

From Stdlib Require Import ZArith List String Ascii Bool Lia SpecFloat.
Import ListNotations.

Local Open Scope Z_scope.

(* ================================================================== *)
(** ** Go's [strings] package, as far as [handleRequest] uses it *)

Module GoStrings.

(** [strings.asciiSpace]. *)
Definition asciiSpace (c : ascii) : bool :=
  let n := N_of_ascii c in
  (N.leb 9 n && N.leb n 13 || N.eqb n 32)%bool.

Definition isByte (c : ascii) (n : N) : bool := N.eqb (N_of_ascii c) n.

(** Width in bytes of the white-space rune that starts [s], 0 when [s] does
    not start with one.  [strings.Fields] splits around [unicode.IsSpace]
    runes: the six ASCII ones and U+0085, U+00A0, U+1680, U+2000..U+200A,
    U+2028, U+2029, U+202F, U+205F, U+3000.  Their UTF-8 encodings start
    with a lead byte (C2, E1, E2, E3), which the decoder never consumes as
    the continuation of another rune, so matching the encodings byte-wise
    finds exactly the runes the decoder would. *)
Definition spaceWidth (s : string) : nat :=
  match s with
  | EmptyString => 0%nat
  | String c rest =>
    if asciiSpace c then 1%nat
    else match rest with
    | String d rest' =>
      if isByte c 0xC2 then
        if (isByte d 0x85 || isByte d 0xA0)%bool then 2%nat else 0%nat
      else match rest' with
      | String e _ =>
        let ne := N_of_ascii e in
        if (isByte c 0xE1 && isByte d 0x9A && isByte e 0x80)%bool then 3%nat
        else if (isByte c 0xE2 && isByte d 0x80 &&
                 (N.leb 0x80 ne && N.leb ne 0x8A || isByte e 0xA8
                  || isByte e 0xA9 || isByte e 0xAF))%bool then 3%nat
        else if (isByte c 0xE2 && isByte d 0x81 && isByte e 0x9F)%bool then 3%nat
        else if (isByte c 0xE3 && isByte d 0x80 && isByte e 0x80)%bool then 3%nat
        else 0%nat
      | EmptyString => 0%nat
      end
    | EmptyString => 0%nat
    end
  end.

Definition flush (cur : string) : list string :=
  match cur with
  | EmptyString => []
  | _ => [cur]
  end.

(** The scan of [strings.Fields]: [skip] counts the bytes of a white-space
    rune still to pass, [cur] is the field being collected. *)
Fixpoint fieldsFrom (s : string) (skip : nat) (cur : string) : list string :=
  match s with
  | EmptyString => flush cur
  | String c s' =>
    match skip with
    | S k => fieldsFrom s' k cur
    | O =>
      match spaceWidth s with
      | O => fieldsFrom s' O (cur ++ String c EmptyString)
      | S k => flush cur ++ fieldsFrom s' k EmptyString
      end
    end
  end.

(** [strings.Fields]. *)
Definition Fields (s : string) : list string := fieldsFrom s O EmptyString.

(** [strings.HasPrefix]. *)
Fixpoint HasPrefix (s prefix : string) : bool :=
  match prefix, s with
  | EmptyString, _ => true
  | String a p, String b s' => (Ascii.eqb a b && HasPrefix s' p)%bool
  | String _ _, EmptyString => false
  end.

(** [strings.Contains]: [substr] occurs somewhere in [s]. *)
Fixpoint Contains (s substr : string) : bool :=
  (HasPrefix s substr ||
   match s with
   | EmptyString => false
   | String _ s' => Contains s' substr
   end)%bool.

(** [strings.Join]. *)
Definition Join (elems : list string) (sep : string) : string :=
  String.concat sep elems.

End GoStrings.

(* ================================================================== *)
(** ** The verb [%c] of [fmt.Sprintf] *)

Module Fmt.

Definition MaxRune : Z := 0x10FFFF.
Definition RuneError : Z := 0xFFFD.
Definition surrogateMin : Z := 0xD800.
Definition surrogateMax : Z := 0xDFFF.
Definition rune1Max : Z := Z.shiftl 1 7 - 1.
Definition rune2Max : Z := Z.shiftl 1 11 - 1.
Definition rune3Max : Z := Z.shiftl 1 16 - 1.
Definition tx : Z := 0x80.
Definition t2 : Z := 0xC0.
Definition t3 : Z := 0xE0.
Definition t4 : Z := 0xF0.
Definition maskx : Z := 0x3F.

(** Conversions [byte(x)], [uint32(x)] and [uint64(x)]. *)
Definition byte (x : Z) : Z := Z.land x 0xFF.
Definition uint32 (x : Z) : Z := x mod 2 ^ 32.
Definition uint64 (x : Z) : Z := x mod 2 ^ 64.

Definition encode3 (r : Z) : list Z :=
  [Z.lor t3 (byte (Z.shiftr r 12));
   Z.lor tx (Z.land (byte (Z.shiftr r 6)) maskx);
   Z.lor tx (Z.land (byte r) maskx)].

(** [utf8.AppendRune] on an empty buffer. *)
Definition AppendRune (r : Z) : list Z :=
  let i := uint32 r in
  if i <=? rune1Max then [byte r]
  else if i <=? rune2Max then
    [Z.lor t2 (byte (Z.shiftr r 6)); Z.lor tx (Z.land (byte r) maskx)]
  else if (MaxRune <? i) || (surrogateMin <=? i) && (i <=? surrogateMax) then
    encode3 RuneError
  else if i <=? rune3Max then encode3 r
  else
    [Z.lor t4 (byte (Z.shiftr r 18));
     Z.lor tx (Z.land (byte (Z.shiftr r 12)) maskx);
     Z.lor tx (Z.land (byte (Z.shiftr r 6)) maskx);
     Z.lor tx (Z.land (byte r) maskx)].

(** [fmtC] of package [fmt]: the argument arrives as a [uint64]. *)
Definition fmtC (c : Z) : list Z :=
  AppendRune (if MaxRune <? c then RuneError else c).

(** [fmt.Sprintf("%c", v)] for an integer [v]. *)
Definition SprintfC (v : Z) : list Z := fmtC (uint64 v).

End Fmt.

(* ================================================================== *)
(** ** [IsPremiumLocation] *)

Module Actions.

Local Open Scope string_scope.

Definition Falkenstein : string := "b134d679-8697-4dc6-b629-c4c189392fca".
Definition Helsinki : string := "7fc5b17c-eddf-413f-8b37-9d36eb5e33ec".

(** The fields of [forestvpn_api.Location] the code reads. *)
Record Location := { Id : string; Name : string }.

Definition GetId (location : Location) : string := Id location.

Definition IsPremiumLocation (location : Location) : bool :=
  let id := GetId location in
  if (id =? Helsinki) || (id =? Falkenstein) then false
  else if id =? "" then true
  else true.

End Actions.

(* ================================================================== *)
(** ** [os/exec] and [syscall.WaitStatus] (Linux) *)

Module Exec.

Local Open Scope string_scope.
Local Open Scope Z_scope.

(** A [syscall.WaitStatus] is a [uint32]. *)
Definition WaitStatus := Z.

Definition mask : Z := 0x7F.
Definition exited : Z := 0x00.
Definition shift : Z := 8.

Definition Exited (w : WaitStatus) : bool := Z.land w mask =? exited.

Definition ExitStatus (w : WaitStatus) : Z :=
  if Exited w then Z.land (Z.shiftr w shift) 0xFF else -1.

(** The errors [Wait] returns: an [*exec.ExitError] carrying the wait
    status, or any other error, of which only the text is used.  The
    errors of [Start] are of the second kind and are kept as their text. *)
Inductive error :=
| ExitError (status : WaitStatus)
| OtherError (msg : string).

(** What the operating system answers to one [execute]: whether the tool
    can be started at all, and what waiting for it gives (an error of the
    wait itself, or the status the tool ended with). *)
Record World := {
  start_err : option string;
  wait_res : string + WaitStatus
}.

(** An [exec.Cmd]: its arguments, whether [Process] is set (the tool was
    started) and [ProcessState] (set once [Wait] has collected it). *)
Record Cmd := {
  Args : list string;
  Process : bool;
  ProcessState : option WaitStatus
}.

(** [exec.Command(name, arg...)]. *)
Definition Command (name : string) (arg : list string) : Cmd :=
  {| Args := name :: arg; Process := false; ProcessState := None |}.

(** [(c *Cmd) Start()]. *)
Definition Start (c : Cmd) (w : World) : Cmd * option string :=
  if Process c then (c, Some "exec: already started")
  else match start_err w with
       | Some e => (c, Some e)
       | None =>
         ({| Args := Args c; Process := true; ProcessState := ProcessState c |},
          None)
       end.

(** [(c *Cmd) Wait()]: a status other than exit 0 comes back as an
    [ExitError]. *)
Definition Wait (c : Cmd) (w : World) : Cmd * option error :=
  if negb (Process c) then (c, Some (OtherError "exec: not started"))
  else match ProcessState c with
       | Some _ => (c, Some (OtherError "exec: Wait was already called"))
       | None =>
         match wait_res w with
         | inl e => (c, Some (OtherError e))
         | inr ws =>
           ({| Args := Args c; Process := true; ProcessState := Some ws |},
            if ExitStatus ws =? 0 then None else Some (ExitError ws))
         end
       end.

End Exec.

(* ================================================================== *)
(** ** The daemon: [forestd/main.go] *)

Module Forestd.

Import GoStrings Exec.
Local Open Scope string_scope.
Local Open Scope Z_scope.

(** [Read], [Write], [DELIMITER] and [QUIT_SIGN] belong to the daemon's
    package but are not declared in [main.go]: the two constants are
    parameters of the model, and the two functions answer from the
    environment. *)
Record Proto := {
  QUIT_SIGN : string;
  DELIMITER : Z
}.

(** The error [Read] may return beside the content.  The handler only takes
    its text; the constructor records which of the two kinds of failure the
    error stands for. *)
Inductive ReadError :=
| DecodeError (msg : string)
| IOError (msg : string).

Definition readErrorText (e : ReadError) : string :=
  match e with
  | DecodeError m => m
  | IOError m => m
  end.

(** What the outside answers during one pass of the handler's loop. *)
Record Env := {
  read_res : string * option ReadError;
  world : World;
  wg_stdout : string;
  write_err : option string
}.

Inductive LogMsg :=
| LogError (text : string)
| LogDisconnected
| LogIncoming (action : string)
| LogMethodFound (action : string)
| LogExecuting (args : list string)
| LogResponding (status : Z).

Inductive Event :=
| Log (m : LogMsg)
| ProcStart (args : list string) (res : option string)
| ProcWait (args : list string) (res : option error)
| WgShow (stdout : string)
| ConnWrite (bytes : list Z) (res : option string)
| ConnClose
| Panic (msg : string).

Definition logIf (e : option string) : list Event :=
  match e with
  | Some m => [Log (LogError m)]
  | None => []
  end.

(** The frames a trace writes to the connection. *)
Definition written (evs : list Event) : list (list Z) :=
  flat_map (fun ev => match ev with
                      | ConnWrite bytes _ => [bytes]
                      | _ => []
                      end) evs.

(** The event is a call of the process runner ([execute]), resp. of any
    external tool. *)
Definition callsRunner (ev : Event) : bool :=
  match ev with
  | ProcStart _ _ | ProcWait _ _ => true
  | _ => false
  end.

Definition callsTool (ev : Event) : bool :=
  match ev with
  | ProcStart _ _ | ProcWait _ _ | WgShow _ => true
  | _ => false
  end.

(** [isActiveWireGuard]: the error of [Output] is dropped. *)
Definition isActiveWireGuard (e : Env) : list Event * Z :=
  ([WgShow (wg_stdout e)],
   if (0 <? String.length (wg_stdout e))%nat then 1 else 0).

(** [execute]: the events, the status returned and the command as the two
    calls leave it. *)
Definition execute (command : Cmd) (w : World) : list Event * Z * Cmd :=
  let '(c1, e1) := Start command w in
  let started := ProcStart (Args command) e1 :: logIf e1 in
  let '(c2, e2) := Wait c1 w in
  let waited := (started ++ [ProcWait (Args command) e2])%list in
  match e2 with
  | Some (ExitError status) => (waited, ExitStatus status, c2)
  | Some (OtherError m) => ((waited ++ [Log (LogError m)])%list, 0, c2)
  | None => (waited, 0, c2)
  end.

(** The variables [handleRequest] declares before its loop. *)
Record Vars := {
  command : option Cmd;
  knownActions : list string;
  status : Z;
  config : string
}.

Definition initial : Vars :=
  {| command := None; knownActions := []; status := 0; config := "" |}.

(** How one pass of the loop ends. *)
Inductive Flow :=
| Next (v : Vars)
| Break
| Panicked.

Section Handler.

Variable P : Proto.

(** Lines 82 to 89: the response is [Sprintf("%c%c", status, DELIMITER)]. *)
Definition payload (status : Z) : list Z := Fmt.SprintfC status.

Definition response (status : Z) : list Z :=
  (payload status ++ Fmt.SprintfC (DELIMITER P))%list.

Definition respond (v : Vars) (e : Env) : list Event * Flow :=
  ([Log (LogResponding (status v));
    ConnWrite (response (status v)) (write_err e)] ++ logIf (write_err e),
   Next v)%list.

(** Lines 56 to 89: a content that is not the quit sign is parsed and
    dispatched. *)
Definition dispatch (v : Vars) (content : string) (e : Env)
  : list Event * Flow :=
  let known := (knownActions v ++ ["connect"; "disconnect"])%list in
  let request := Fields content in
  match request with
  | [] => ([Panic "index out of range [0] with length 0"], Panicked)
  | action :: _ =>
    let incoming := Log (LogIncoming action) in
    if ((1 <? List.length request)%nat && Contains (Join known "") action)%bool
    then
      let config' := nth 1 request "" in
      let command' :=
        if String.eqb action (nth 0 known "") then
          Some (Command "wg-quick" ["up"; config'])
        else if String.eqb action (nth 1 known "") then
          Some (Command "wg-quick" ["down"; config'])
        else command v in
      match command' with
      | None =>
        ([incoming; Log (LogMethodFound action);
          Panic "invalid memory address or nil pointer dereference"],
         Panicked)
      | Some c =>
        let '(evs, st, c') := execute c (world e) in
        let v' := {| command := Some c'; knownActions := known;
                     status := st; config := config' |} in
        let '(out, fl) := respond v' e in
        ((incoming :: Log (LogMethodFound action)
            :: Log (LogExecuting (Args c)) :: evs) ++ out, fl)%list
      end
    else if String.eqb action "status" then
      let '(evs, st) := isActiveWireGuard e in
      let v' := {| command := command v; knownActions := known;
                   status := st; config := config v |} in
      let '(out, fl) := respond v' e in
      ((incoming :: evs) ++ out, fl)%list
    else
      let v' := {| command := command v; knownActions := known;
                   status := -1; config := config v |} in
      let '(out, fl) := respond v' e in
      (incoming :: out, fl)
  end.

(** One pass of the loop, lines 45 to 89. *)
Definition pass (v : Vars) (e : Env) : list Event * Flow :=
  let '(content, err) := read_res e in
  let logged := logIf (option_map readErrorText err) in
  if String.eqb content (QUIT_SIGN P) then
    ((logged ++ [Log LogDisconnected])%list, Break)
  else
    let '(evs, fl) := dispatch v content e in
    ((logged ++ evs)%list, fl).

(** How a run of the handler over finitely many answers of the outside
    stands: blocked in [Read] with the connection open, returned, or ended
    by a panic; the deferred [conn.Close] runs in the last two, and a panic
    no goroutine recovers ends the daemon. *)
Inductive Outcome :=
| Reading (v : Vars)
| Returned
| Crashed.

(** The loop of [handleRequest]. *)
Fixpoint loop (v : Vars) (envs : list Env) : list Event * Outcome :=
  match envs with
  | [] => ([], Reading v)
  | e :: rest =>
    match pass v e with
    | (evs, Next v') =>
      let '(evs', out) := loop v' rest in ((evs ++ evs')%list, out)
    | (evs, Break) => ((evs ++ [ConnClose])%list, Returned)
    | (evs, Panicked) => ((evs ++ [ConnClose])%list, Crashed)
    end
  end.

Definition handleRequest (envs : list Env) : list Event * Outcome :=
  loop initial envs.

End Handler.

End Forestd.

(* ================================================================== *)
(** ** Several connections at once *)

Module Daemon.

Import Forestd.

(** [main] starts one goroutine per accepted connection ([go
    handleRequest(conn)]).  Neither [handleRequest] nor [execute] takes a
    lock, uses a channel or touches a variable shared between goroutines,
    so the handlers do not wait for one another: a run of the daemon with
    two connections is any merge of the two handlers' traces, each event
    tagged with its connection. *)
Definition Tagged : Type := nat * Event.

Definition tag (c : nat) (t : list Event) : list Tagged := map (pair c) t.

Inductive interleave : list Tagged -> list Tagged -> list Tagged -> Prop :=
| interleave_nil : interleave [] [] []
| interleave_left x a b g :
    interleave a b g -> interleave (x :: a) b (x :: g)
| interleave_right x a b g :
    interleave a b g -> interleave a (x :: b) (x :: g).

(** The events of connection [c] in a run. *)
Definition proj (c : nat) (g : list Tagged) : list Event :=
  map snd (filter (fun x => Nat.eqb (fst x) c) g).

(** An external process call is in flight from the [Start] that succeeded
    to the return of the [Wait] that follows it. *)
Definition inFlight (b : bool) (e : Event) : bool :=
  match e with
  | ProcStart _ None => true
  | ProcWait _ _ => false
  | _ => b
  end.

Definition busy (t : list Event) : bool := fold_left inFlight t false.

(** After the first [k] events of the run [g], the connections [c1] and
    [c2] both have a process call in flight. *)
Definition overlapAt (g : list Tagged) (k c1 c2 : nat) : bool :=
  (busy (proj c1 (firstn k g)) && busy (proj c2 (firstn k g)))%bool.

(** No process is started in [t] while another one of [t] is in flight,
    [b] telling whether one is at the start. *)
Fixpoint serialFrom (b : bool) (t : list Event) : bool :=
  match t with
  | [] => true
  | e :: t' =>
    (match e with
     | ProcStart _ None => negb b
     | _ => true
     end && serialFrom (inFlight b e) t')%bool
  end.

(** A stretch of events that starts with no call in flight, starts none
    while one is, and ends with none in flight. *)
Definition settled (t : list Event) : Prop :=
  serialFrom false t = true /\ fold_left inFlight t false = false.

(** Event [k] of the run [g] is the [wg show] of a status query on
    connection [c2], and [c1] has a process call in flight at that
    moment. *)
Definition probedDuring (g : list Tagged) (k c1 c2 : nat) : bool :=
  match nth_error g k with
  | Some (c, WgShow _) => (Nat.eqb c c2 && busy (proj c1 (firstn k g)))%bool
  | _ => false
  end.

End Daemon.

(* ================================================================== *)
(** ** [time] and [float64] *)

Module GoTime.

(** [float64] arithmetic: IEEE 754 binary64, round to nearest even. *)
Definition float64 : Type := spec_float.
Definition prec : Z := 53.
Definition emax : Z := 1024.

(** [float64(n)] for an integer [n]. *)
Definition ofInt (n : Z) : float64 := binary_normalize prec emax n 0 false.
Definition fadd : float64 -> float64 -> float64 := SFadd prec emax.
Definition fdiv : float64 -> float64 -> float64 := SFdiv prec emax.
Definition feqb : float64 -> float64 -> bool := SFeqb.

Definition minInt64 : Z := - 2 ^ 63.
Definition maxInt64 : Z := 2 ^ 63 - 1.

(** [int64(f)]: the fraction is dropped.  What does not fit, or is no
    number, gives the least [int64], as on amd64; the durations of this
    file stay far from it. *)
Definition toInt (f : float64) : Z :=
  match f with
  | S754_zero _ => 0
  | S754_finite s m e =>
    let a := if 0 <=? e then Zpos m * 2 ^ e else Zpos m / 2 ^ (- e) in
    let v := if s then - a else a in
    if (minInt64 <=? v) && (v <=? maxInt64) then v else minInt64
  | _ => minInt64
  end.

(** A [time.Duration] is an [int64] count of nanoseconds. *)
Definition Duration : Type := Z.
Definition Second : Duration := 1000000000.
Definition Minute : Duration := 60 * Second.
Definition Hour : Duration := 60 * Minute.

(** [(d Duration) Hours()] and [Minutes()]; Go's [/] and [%] round towards
    zero. *)
Definition Hours (d : Duration) : float64 :=
  let hour := Z.quot d Hour in
  let nsec := Z.rem d Hour in
  fadd (ofInt hour) (fdiv (ofInt nsec) (ofInt (60 * 60 * 1000000000))).

Definition Minutes (d : Duration) : float64 :=
  let min := Z.quot d Minute in
  let nsec := Z.rem d Minute in
  fadd (ofInt min) (fdiv (ofInt nsec) (ofInt (60 * 1000000000))).

(** A [time.Time] as the count of nanoseconds of its wall clock.  The
    expiry date carries no monotonic reading, so [After] and [Sub] compare
    wall clocks. *)
Definition Time : Type := Z.

Definition After (t u : Time) : bool := u <? t.

(** [t.Sub(u)], which saturates at the ends of [Duration]. *)
Definition Sub (t u : Time) : Duration :=
  let d := t - u in
  if d <? minInt64 then minInt64
  else if maxInt64 <? d then maxInt64
  else d.

End GoTime.

(* ================================================================== *)
(** ** The [state up] action of [src/main.go], lines 227 to 251 *)

Module Fvpn.

Import Actions GoTime.
Local Open Scope string_scope.
Local Open Scope Z_scope.

(** What the action reads of the billing feature. *)
Record BillingFeature := {
  BundleId : string;
  ExpiryDate : Time
}.

Inductive Line :=
| LocationUnavailable   (* The location you were using is now unavailable,
                           as your paid subscription has ended. *)
| SessionOver           (* Your 30-minute session is over. *)
| KeepUsing             (* You can keep using ForestVPN once you watch an
                           ad in our mobile app, or simply go Premium *)
| LessThan5Minutes      (* You currently have less than 5 minutes of free
                           trial left. *)
| EndsIn3Days.          (* Your premium subscription will end in less than
                           3 days. *)

Inductive Effect :=
| Println (l : Line)
| OsExit (code : Z)
| SetUp (persist : bool).

Definition premium : string := "com.forestvpn.premium".
Definition freemium : string := "com.forestvpn.freemium".

(** [days := int64(left.Hours() / 24)]. *)
Definition daysLeft (left : Duration) : Z :=
  toInt (fdiv (Hours left) (ofInt 24)).

(** The condition of line 246. *)
Definition endsSoon (bid : string) (left : Duration) : bool :=
  ((daysLeft left =? 3) && feqb (Hours left) (ofInt 0)
   || (daysLeft left <? 3) && String.eqb bid premium)%bool.

(** From the billing feature to the call of [state.SetUp]: what is
    printed, and whether the process exits or asks for the bring-up. *)
Definition upAction (b : BillingFeature) (location : Location)
    (now : Time) (persist : bool) : list Effect :=
  let bid := BundleId b in
  let exp := ExpiryDate b in
  let left := Sub exp now in
  if After now exp then
    if (IsPremiumLocation location && String.eqb bid premium)%bool then
      [Println LocationUnavailable; Println KeepUsing; OsExit 1]
    else
      [Println SessionOver; Println KeepUsing; OsExit 1]
  else
    ((if (String.eqb bid freemium && (toInt (Minutes left) <? 5))%bool then
        [Println LessThan5Minutes]
      else if endsSoon bid left then [Println EndsIn3Days]
      else []) ++ [SetUp persist])%list.

End Fvpn.

(* ================================================================== *)
(** ** Inputs of the examples *)

Module Samples.

Import Exec Forestd.
Local Open Scope string_scope.
Local Open Scope Z_scope.

(** Values for the two constants, for the examples to run on: frames end
    with a line feed and the quit sign is [quit!]. *)
Definition lineProto : Proto := {| QUIT_SIGN := "quit!"; DELIMITER := 10 |}.

(** The tool starts and exits with status 0; [wg show] prints nothing;
    the write succeeds. *)
Definition clean : World := {| start_err := None; wait_res := inr 0 |}.

Definition idle : Env :=
  {| read_res := ("", None); world := clean; wg_stdout := "";
     write_err := None |}.

(** [Read] delivers [content] without error. *)
Definition frame (content : string) : Env :=
  {| read_res := (content, None); world := clean; wg_stdout := "";
     write_err := None |}.

(** [Read] fails with [err] and the empty content. *)
Definition failing (err : ReadError) : Env :=
  {| read_res := ("", Some err); world := clean; wg_stdout := "";
     write_err := None |}.

(** A bring-up frame and a status frame that are not the quit sign of
    [P], whatever that is. *)
Definition upFrame (P : Proto) : string :=
  if String.eqb "connect wg0" (QUIT_SIGN P) then "connect wg1"
  else "connect wg0".

Definition statusFrame (P : Proto) : string :=
  if String.eqb "status" (QUIT_SIGN P) then "status now" else "status".

(** The tool exits with status 2: the wait status is [2 << 8]. *)
Definition toolExits2 : Env :=
  {| read_res := ("connect wg0", None);
     world := {| start_err := None; wait_res := inr (Z.shiftl 2 8) |};
     wg_stdout := ""; write_err := None |}.

(** The tool cannot be started. *)
Definition noBinary : World :=
  {| start_err := Some "exec: wg-quick: executable file not found in $PATH";
     wait_res := inr 0 |}.

Definition helsinki : Actions.Location :=
  {| Actions.Id := Actions.Helsinki; Actions.Name := "Helsinki" |}.

End Samples.

(* ================================================================== *)
(** ** The known actions in the course of a connection *)

Module Connection.

Local Open Scope string_scope.

(** What line 56 appends in every pass: [knownActions] after [n] passes
    of a handler that started with the empty slice. *)
Definition knownAfter (n : nat) : list string :=
  List.concat (repeat ["connect"; "disconnect"] n).

End Connection.

(* ================================================================== *)
(** ** [strings.Split] with a separator of one byte *)

Module GoSplit.

Local Open Scope string_scope.

(** The scan of [strings.Split(s, sep)] for [sep] of one byte, which is
    how the package is called here ([.] and the blank): a piece ends at
    every [sep], and the rest after the last one is a piece too. *)
Fixpoint splitFrom (s : string) (sep : ascii) (cur : string) : list string :=
  match s with
  | EmptyString => [cur]
  | String c s' =>
    if Ascii.eqb c sep then cur :: splitFrom s' sep EmptyString
    else splitFrom s' sep (cur ++ String c EmptyString)
  end.

Definition SplitByte (s : string) (sep : ascii) : list string :=
  splitFrom s sep EmptyString.

(** [strings.Count(s, sep)] for the same separators. *)
Fixpoint CountByte (s : string) (sep : ascii) : nat :=
  match s with
  | EmptyString => 0
  | String c s' => (if Ascii.eqb c sep then 1 else 0) + CountByte s' sep
  end.

End GoSplit.

(* ================================================================== *)
(** ** Location wrappers and the [location set] action *)

Module LocationSet.

Import GoTime Fvpn.
Local Open Scope string_scope.
Local Open Scope Z_scope.

(** [actions.LocationWrapper]. *)
Record LocationWrapper := {
  Location : Actions.Location;
  Premium : bool
}.

(** The zero value of [var location actions.LocationWrapper]. *)
Definition zeroWrapper : LocationWrapper :=
  {| Location := {| Actions.Id := ""; Actions.Name := "" |};
     Premium := false |}.

(** [GetLocationWrappers]: the loop appends one wrapper per location. *)
Definition GetLocationWrappers (locations : list Actions.Location)
  : list LocationWrapper :=
  fold_left
    (fun wrappers location =>
       (wrappers ++ [{| Location := location;
                        Premium := Actions.IsPremiumLocation location |}])%list)
    locations [].

(** The wrapper the loop makes of one location. *)
Definition wrap (location : Actions.Location) : LocationWrapper :=
  {| Location := location; Premium := Actions.IsPremiumLocation location |}.

Section Lookup.

(** [strings.EqualFold] (equality under Unicode case folding) and
    [uuid.Parse] followed by [id.String()] are taken as they come: nothing
    is assumed of them. *)
Variable EqualFold : string -> string -> bool.
Variable uuidParse : string -> option string.

(** The loop of the branch [err != nil]: the first wrapper whose name
    folds to [arg]. *)
Fixpoint byName (wrapped : list LocationWrapper) (arg : string)
    (location : LocationWrapper) (found : bool) : LocationWrapper * bool :=
  match wrapped with
  | [] => (location, found)
  | loc :: rest =>
    if EqualFold (Actions.Name (Location loc)) arg then (loc, true)
    else byName rest arg location found
  end.

(** The loop of the other branch, as it is written: the test reads the
    variable [location], not [loc], and a hit sets [found = false]. *)
Fixpoint byId (wrapped : list LocationWrapper) (id : string)
    (location : LocationWrapper) (found : bool) : LocationWrapper * bool :=
  match wrapped with
  | [] => (location, found)
  | loc :: rest =>
    if EqualFold (Actions.GetId (Location location)) id then (loc, false)
    else byId rest id location found
  end.

(** From [var location] to the test of [found]. *)
Definition lookup (wrapped : list LocationWrapper) (arg : string)
  : LocationWrapper * bool :=
  match uuidParse arg with
  | None => byName wrapped arg zeroWrapper false
  | Some id => byId wrapped id zeroWrapper false
  end.

(** What the calls of the action answer ([src/main.go], lines 364 to
    441). *)
Record SetEnv := {
  signIn : option string;
  statusUp : bool;
  clientErr : option string;
  getLocations : string + list Actions.Location;
  billing : string + BillingFeature;
  now : Time;
  loadDevice : option string
}.

(** How the action goes on: it returns an error, prints and returns, or
    reaches [UpdateDevice] with the id of the location. *)
Inductive SetOutcome :=
| Failed (err : string)
| AlreadyUp
| NameRequired
| NoSuchLocation (arg : string)
| Unavailable
| UpdateDevice (locationId : string).

Definition locationSet (env : SetEnv) (arg : string) : SetOutcome :=
  match signIn env with
  | Some e => Failed e
  | None =>
    if statusUp env then AlreadyUp
    else if (String.length arg <? 1)%nat then NameRequired
    else match clientErr env with
    | Some e => Failed e
    | None =>
      match getLocations env with
      | inl e => Failed e
      | inr locations =>
        let wrappedLocations := GetLocationWrappers locations in
        let '(location, found) := lookup wrappedLocations arg in
        if negb found then NoSuchLocation arg
        else match billing env with
        | inl e => Failed e
        | inr b =>
          let bid := BundleId b in
          let expired := After (now env) (ExpiryDate b) in
          if (Premium location && String.eqb bid freemium || expired)%bool
          then Unavailable
          else match loadDevice env with
               | Some e => Failed e
               | None => UpdateDevice (Actions.GetId (Location location))
               end
        end
      end
    end
  end.

End Lookup.

(** [src/cmd/main.go], lines 179 to 195: the location a first login
    picks.  [rand.Intn(n)] panics for [n = 0] and gives some number below
    [n] otherwise, here [draw mod n]. *)
Definition Intn (n draw : nat) : option nat :=
  match n with
  | O => None
  | S _ => Some (draw mod n)%nat
  end.

Definition locationSetOf (isPremiumUser : bool)
    (wrappedLocations : list LocationWrapper) : list LocationWrapper :=
  if isPremiumUser then wrappedLocations
  else fold_left
         (fun set loc => if negb (Premium loc) then (set ++ [loc])%list else set)
         wrappedLocations [].

(** [None] stands for a panic ([rand.Intn] or the index). *)
Definition pickLocation (isPremiumUser : bool)
    (wrappedLocations : list LocationWrapper) (draw : nat)
  : option LocationWrapper :=
  match Intn (List.length (locationSetOf isPremiumUser wrappedLocations)) draw with
  | None => None
  | Some randomIndex => nth_error wrappedLocations randomIndex
  end.

End LocationSet.

(* ================================================================== *)
(** ** The comparison of [sortLocations] *)

Module Listing.

Local Open Scope string_scope.

(** The two names the comparison reads of a location: [GetName()] and
    [Country.GetName()]. *)
Record Place := {
  PlaceName : string;
  CountryName : string
}.

(** The function given to [sort.Slice]; [<] on Go strings compares
    bytes. *)
Definition less (a b : Place) : bool :=
  (String.ltb (PlaceName a) (PlaceName b)
   && String.ltb (CountryName a) (CountryName b))%bool.

End Listing.

(* ================================================================== *)
(** ** Messages of the command line *)

Module Cli.

Import GoStrings GoSplit.
Local Open Scope string_scope.

(** The end of [main]: the error text is split at blanks, the first piece
    goes through the title caser (taken as it comes) and the pieces are
    joined again.  [None] stands for a panic at [msg[0]]. *)
Definition render (title : string -> string) (text : string) : option string :=
  match SplitByte text " " with
  | [] => None
  | first :: rest => Some (Join (title first :: rest) " ")
  end.

(** [account status], line 113: [strings.Split(b.GetBundleId(), ".")[2]],
    [None] for the index out of range. *)
Definition planPart (bundleId : string) : option string :=
  nth_error (SplitByte bundleId ".") 2.

End Cli.

(* ================================================================== *)
(** ** Inputs of the examples, continued *)

Module MoreSamples.

Import GoTime Fvpn LocationSet.
Local Open Scope string_scope.
Local Open Scope Z_scope.

(** Stand-ins for the two library functions, for the examples to run on:
    texts fold to one another when they are equal, and a text parses as a
    UUID when it is 36 bytes long. *)
Definition sameText : string -> string -> bool := String.eqb.

Definition parse36 (s : string) : option string :=
  if (String.length s =? 36)%nat then Some s else None.

Definition oslo : Actions.Location :=
  {| Actions.Id := "0b1c7a52-5d0e-4a6e-9a53-2f1d3c4b5a69"; Actions.Name := "Oslo" |}.

(** A freemium account, not expired, with Oslo before Helsinki in the
    list of locations. *)
Definition freeAccount : SetEnv :=
  {| signIn := None; statusUp := false; clientErr := None;
     getLocations := inr [oslo; Samples.helsinki];
     billing := inr {| BundleId := freemium; ExpiryDate := Hour |};
     now := 0; loadDevice := None |}.

End MoreSamples.

(* ================================================================== *)
(** ** The whole [state up] action, lines 202 to 251 *)

Module StateUp.

Import GoTime Fvpn.
Local Open Scope string_scope.
Local Open Scope Z_scope.






End StateUp.

(* ================================================================== *)
(** * Properties *)

(** ** Premium locations *)

Section LocationFacts.

Import Actions.
Local Open Scope string_scope.

(** C10: [IsPremiumLocation] answers [false] exactly for the locations whose
    id is the Helsinki or the Falkenstein UUID; any other location is
    premium, the one with the empty id included. *)
Theorem IsPremiumLocation_spec :
  (forall location,
      IsPremiumLocation location = false <->
      GetId location = Helsinki \/ GetId location = Falkenstein) /\
  (forall name, IsPremiumLocation {| Id := ""; Name := name |} = true).
Proof.
  split; [| reflexivity].
  intros location. unfold IsPremiumLocation.
  destruct (String.eqb_spec (GetId location) Helsinki) as [hel | nhel];
    destruct (String.eqb_spec (GetId location) Falkenstein) as [fal | nfal];
    cbn [orb].
  1-3: split; auto.
  split; [| tauto].
  destruct (GetId location =? ""); discriminate.
Qed.

End LocationFacts.

(* ------------------------------------------------------------------ *)
(** ** The session gate *)

Section GateFacts.

Import Actions GoTime Fvpn Samples.

Lemma After_lt (t u : Time) : After t u = true <-> u < t.
Proof. unfold After. apply Z.ltb_lt. Qed.

(** A [float64] that compares equal to zero is a zero. *)
Lemma feqb_zero (h : float64) :
  feqb h (ofInt 0) = true -> exists s, h = S754_zero s.
Proof.
  destruct h as [s | s | | s m e]; cbn.
  - intros _. now exists s.
  - destruct s; discriminate.
  - discriminate.
  - destruct s; discriminate.
Qed.

(** The first half of line 246 never holds: with [days == 3] the hours
    left are not zero. *)
Lemma three_days_and_no_hours (left : Duration) :
  ((daysLeft left =? 3) && feqb (Hours left) (ofInt 0))%bool = false.
Proof.
  destruct (feqb (Hours left) (ofInt 0)) eqn:zero.
  - apply feqb_zero in zero. destruct zero as [s hs].
    unfold daysLeft. rewrite hs. now destruct s.
  - apply andb_false_r.
Qed.

Lemma endsSoon_eq (bid : string) (left : Duration) :
  endsSoon bid left = ((daysLeft left <? 3) && String.eqb bid premium)%bool.
Proof. unfold endsSoon. now rewrite three_days_and_no_hours. Qed.

(** C4: once the expiry date is passed the action prints the reason (the
    location one for a premium location on the premium bundle, the session
    one otherwise) and exits with code 1; [state.SetUp] is not called. *)
Theorem expired_is_denied (b : BillingFeature) (location : Location)
    (now : Time) (persist : bool) :
  ExpiryDate b < now ->
  upAction b location now persist =
    [Println (if (IsPremiumLocation location
                  && String.eqb (BundleId b) premium)%bool
              then LocationUnavailable else SessionOver);
     Println KeepUsing; OsExit 1] /\
  (forall p, ~ In (SetUp p) (upAction b location now persist)) /\
  exists code,
    last (upAction b location now persist) (SetUp persist) = OsExit code /\
    code <> 0.
Proof.
  intros expired. apply After_lt in expired.
  assert (upAction b location now persist =
    [Println (if (IsPremiumLocation location
                  && String.eqb (BundleId b) premium)%bool
              then LocationUnavailable else SessionOver);
     Println KeepUsing; OsExit 1]) as run.
  { unfold upAction. rewrite expired.
    now destruct (IsPremiumLocation location && String.eqb (BundleId b) premium)%bool. }
  rewrite run. split; [reflexivity | split].
  - intros p [h | [h | [h | []]]]; discriminate.
  - exists 1. split; [reflexivity | discriminate].
Qed.

Lemma expired_is_denied_witness :
  upAction {| BundleId := freemium; ExpiryDate := 0 |} helsinki Hour false =
    [Println SessionOver; Println KeepUsing; OsExit 1] /\
  (forall p, ~ In (SetUp p)
     (upAction {| BundleId := freemium; ExpiryDate := 0 |} helsinki Hour false)) /\
  exists code,
    last (upAction {| BundleId := freemium; ExpiryDate := 0 |} helsinki Hour false)
      (SetUp false) = OsExit code /\
    code <> 0.
Proof.
  apply (expired_is_denied {| BundleId := freemium; ExpiryDate := 0 |}
           helsinki Hour false).
  reflexivity.
Defined.

(** What is printed before a bring-up that is let through. *)
Lemma upAction_not_expired (b : BillingFeature) (location : Location)
    (now : Time) (persist : bool) :
  now <= ExpiryDate b ->
  upAction b location now persist =
    ((if (String.eqb (BundleId b) freemium
          && (toInt (Minutes (Sub (ExpiryDate b) now)) <? 5))%bool
      then [Println LessThan5Minutes]
      else if ((daysLeft (Sub (ExpiryDate b) now) <? 3)
               && String.eqb (BundleId b) premium)%bool
      then [Println EndsIn3Days]
      else []) ++ [SetUp persist])%list.
Proof.
  intros alive. unfold upAction.
  replace (After now (ExpiryDate b)) with false
    by (symmetry; apply Z.ltb_ge; exact alive).
  now rewrite endsSoon_eq.
Qed.

(** Before the expiry date the three-day line is printed exactly when
    fewer than three days are left and the bundle is the premium one. *)
Lemma ends_in_3_days_iff (b : BillingFeature) (location : Location)
    (now : Time) (persist : bool) :
  now <= ExpiryDate b ->
  In (Println EndsIn3Days) (upAction b location now persist) <->
  daysLeft (Sub (ExpiryDate b) now) < 3 /\ BundleId b = premium.
Proof.
  intros alive. rewrite upAction_not_expired by exact alive.
  destruct (String.eqb_spec (BundleId b) freemium) as [free | paid].
  - rewrite free. cbn [andb].
    replace (String.eqb freemium premium) with false by reflexivity.
    rewrite andb_false_r.
    destruct (toInt (Minutes (Sub (ExpiryDate b) now)) <? 5); cbn [app In];
      (split; [intuition discriminate | intros [_ h]; discriminate]).
  - cbn [andb].
    destruct (Z.ltb_spec (daysLeft (Sub (ExpiryDate b) now)) 3) as [soon | far];
      destruct (String.eqb_spec (BundleId b) premium) as [prem | other];
      cbn [andb app In]; split; try tauto; try lia;
        intuition discriminate.
Qed.

Lemma ends_in_3_days_iff_witness :
  In (Println EndsIn3Days)
     (upAction {| BundleId := premium; ExpiryDate := 2 * 24 * Hour |}
        helsinki 0 false) <->
  daysLeft (Sub (2 * 24 * Hour) 0) < 3 /\ premium = premium.
Proof.
  apply (ends_in_3_days_iff
           {| BundleId := premium; ExpiryDate := 2 * 24 * Hour |}
           helsinki 0 false).
  discriminate.
Defined.

Lemma Sub_add (now : Time) (d : Duration) :
  minInt64 <= d <= maxInt64 -> Sub (now + d) now = d.
Proof.
  intros [lo hi]. unfold Sub. rewrite Z.add_simpl_l.
  replace (d <? minInt64) with false by (symmetry; apply Z.ltb_ge; exact lo).
  replace (maxInt64 <? d) with false by (symmetry; apply Z.ltb_ge; exact hi).
  reflexivity.
Qed.

(** C5: with exactly three days left (72 hours, no remainder within the
    day) nothing is printed, for the premium bundle as for any other: the
    action goes straight to [state.SetUp]. *)
Theorem three_days_sharp_no_warning (bid : string) (location : Location)
    (now : Time) (persist : bool) :
  upAction {| BundleId := bid; ExpiryDate := now + 3 * 24 * Hour |}
    location now persist = [SetUp persist] /\
  daysLeft (3 * 24 * Hour) = 3 /\
  Z.rem (3 * 24 * Hour) (24 * Hour) = 0.
Proof.
  split; [| split; reflexivity].
  rewrite upAction_not_expired by (cbn; lia).
  cbn [BundleId ExpiryDate].
  rewrite Sub_add by (vm_compute; split; discriminate).
  replace (toInt (Minutes (3 * 24 * Hour)) <? 5) with false by reflexivity.
  replace (daysLeft (3 * 24 * Hour) <? 3) with false by reflexivity.
  now rewrite andb_false_r.
Qed.

(** A premium bundle with two whole days left is let through with the
    three-day line. *)
Lemma two_days_premium_warned (location : Location) (now : Time)
    (persist : bool) :
  upAction {| BundleId := premium; ExpiryDate := now + 2 * 24 * Hour |}
    location now persist = [Println EndsIn3Days; SetUp persist].
Proof.
  rewrite upAction_not_expired by (cbn; lia).
  cbn [BundleId ExpiryDate].
  rewrite Sub_add by (vm_compute; split; discriminate).
  reflexivity.
Qed.

End GateFacts.

(* ------------------------------------------------------------------ *)
(** ** The process runner *)

Section RunnerFacts.

Import Exec Forestd Samples.
Local Open Scope string_scope.
Local Open Scope Z_scope.

Lemma ExitStatus_range (w : WaitStatus) : -1 <= ExitStatus w <= 255.
Proof.
  unfold ExitStatus. destruct (Exited w); [| lia].
  change (Z.land (Z.shiftr w shift) 0xFF)
    with (Z.land (Z.shiftr w shift) (Z.ones 8)).
  rewrite Z.land_ones by lia.
  pose proof (Z.mod_pos_bound (Z.shiftr w shift) (2 ^ 8) eq_refl) as bound.
  change (2 ^ 8) with 256 in bound |- *. lia.
Qed.

Lemma execute_status_range (c : Cmd) (w : World) :
  -1 <= snd (fst (execute c w)) <= 255.
Proof.
  unfold execute.
  destruct (Start c w) as [c1 e1]. destruct (Wait c1 w) as [c2 [[ws | m] |]];
    cbn [fst snd]; try lia.
  apply ExitStatus_range.
Qed.

Lemma written_app (a b : list Event) :
  written (a ++ b) = (written a ++ written b)%list.
Proof. apply flat_map_app. Qed.

Lemma written_logIf (e : option string) : written (logIf e) = [].
Proof. now destruct e. Qed.

Lemma execute_writes_nothing (c : Cmd) (w : World) :
  written (fst (fst (execute c w))) = [].
Proof.
  unfold execute.
  destruct (Start c w) as [c1 e1]. destruct (Wait c1 w) as [c2 [[ws | m] |]];
    cbn [fst snd]; repeat (rewrite written_app || cbn [written flat_map app]);
    now rewrite written_logIf.
Qed.

(** A tool that was started and waited for: [execute] returns its exit
    status as it is (-1 when a signal ended it). *)
Lemma execute_exit_status (name : string) (arg : list string) (w : World)
    (ws : WaitStatus) :
  start_err w = None -> wait_res w = inr ws ->
  snd (fst (execute (Command name arg) w)) = ExitStatus ws.
Proof.
  intros started waited. unfold execute, Start, Wait. cbn.
  rewrite started. cbn. rewrite waited.
  destruct (ExitStatus ws =? 0) eqn:clean; cbn [fst snd]; [| reflexivity].
  symmetry. now apply Z.eqb_eq.
Qed.

(** C6: when the tool cannot be started, [execute] logs the error of
    [Start] (and the one [Wait] then returns) and gives status 0, the value
    a clean exit gives; the failure does not come back as -1. *)
Theorem execute_start_failure (name : string) (arg : list string)
    (w : World) (e : string) :
  start_err w = Some e ->
  execute (Command name arg) w =
    ([ProcStart (name :: arg) (Some e);
      Log (LogError e);
      ProcWait (name :: arg) (Some (OtherError "exec: not started"));
      Log (LogError "exec: not started")],
     0, Command name arg) /\
  (forall w0 ws,
      start_err w0 = None -> wait_res w0 = inr ws -> ExitStatus ws = 0 ->
      snd (fst (execute (Command name arg) w0)) =
      snd (fst (execute (Command name arg) w))) /\
  snd (fst (execute (Command name arg) w)) <> -1.
Proof.
  intros failed.
  assert (execute (Command name arg) w =
    ([ProcStart (name :: arg) (Some e);
      Log (LogError e);
      ProcWait (name :: arg) (Some (OtherError "exec: not started"));
      Log (LogError "exec: not started")],
     0, Command name arg)) as run.
  { unfold execute, Start, Wait. cbn. rewrite failed. reflexivity. }
  rewrite run. split; [reflexivity | split]; [| discriminate].
  intros w0 ws ok waited clean.
  unfold execute, Start, Wait. cbn. rewrite ok. cbn. rewrite waited, clean.
  reflexivity.
Qed.

Lemma execute_start_failure_witness :
  execute (Command "wg-quick" ["up"; "wg0"]) noBinary =
    ([ProcStart ["wg-quick"; "up"; "wg0"]
        (Some "exec: wg-quick: executable file not found in $PATH");
      Log (LogError "exec: wg-quick: executable file not found in $PATH");
      ProcWait ["wg-quick"; "up"; "wg0"] (Some (OtherError "exec: not started"));
      Log (LogError "exec: not started")],
     0, Command "wg-quick" ["up"; "wg0"]).
Proof.
  exact (proj1 (execute_start_failure "wg-quick" ["up"; "wg0"] noBinary
                  "exec: wg-quick: executable file not found in $PATH"
                  eq_refl)).
Defined.

End RunnerFacts.

(* ------------------------------------------------------------------ *)
(** ** One pass of the handler *)

Section HandlerFacts.

Import GoStrings Exec Forestd.
Local Open Scope string_scope.
Local Open Scope Z_scope.

Variable P : Proto.

(** The cases of [dispatch], in the order of the source. *)
Ltac dispatch_cases v content e :=
  unfold dispatch;
  destruct (Fields content) as [| action more] eqn:fields;
  [| destruct ((1 <? List.length (action :: more))%nat
              && Contains (Join (knownActions v ++ ["connect"; "disconnect"]) "")
                          action)%bool eqn:known;
     [ destruct (if String.eqb action
                      (nth 0 (knownActions v ++ ["connect"; "disconnect"]) "")
                 then Some (Command "wg-quick" ["up"; nth 1 (action :: more) ""])
                 else if String.eqb action
                      (nth 1 (knownActions v ++ ["connect"; "disconnect"]) "")
                 then Some (Command "wg-quick" ["down"; nth 1 (action :: more) ""])
                 else command v) as [c |] eqn:chosen;
       [ destruct (execute c (world e)) as [[ran_evs ran_st] ran_c] eqn:ran |]
     | destruct (String.eqb action "status") eqn:probe ] ].

Lemma payload_one_byte (st : Z) : 0 <= st <= 127 -> payload st = [st].
Proof.
  intros small. unfold payload, Fmt.SprintfC, Fmt.fmtC, Fmt.uint64.
  rewrite Z.mod_small by lia.
  replace (Fmt.MaxRune <? st) with false
    by (symmetry; apply Z.ltb_ge; unfold Fmt.MaxRune; lia).
  unfold Fmt.AppendRune, Fmt.uint32. rewrite Z.mod_small by lia.
  replace (st <=? Fmt.rune1Max) with true
    by (symmetry; apply Z.leb_le; change Fmt.rune1Max with 127; lia).
  unfold Fmt.byte. change 0xFF with (Z.ones 8).
  rewrite Z.land_ones by lia. now rewrite Z.mod_small by lia.
Qed.

(** A pass that goes on has written exactly one frame: the status of the
    pass as [%c], then the delimiter. *)
Lemma dispatch_next (v v' : Vars) (content : string) (e : Env)
    (evs : list Event) :
  dispatch P v content e = (evs, Next v') ->
  written evs = [response P (status v')] /\ -1 <= status v' <= 255.
Proof.
  dispatch_cases v content e; cbn [respond]; intros run;
    inversion run; subst; cbn [status]; clear run.
  - pose proof (execute_writes_nothing c (world e)) as quiet.
    pose proof (execute_status_range c (world e)) as range.
    rewrite ran in quiet, range. cbn [fst snd] in quiet, range.
    split; [| exact range].
    change (written (ran_evs ++ Log (LogResponding ran_st)
                     :: ConnWrite (response P ran_st) (write_err e)
                     :: logIf (write_err e)) = [response P ran_st]).
    rewrite written_app, quiet.
    change (response P ran_st :: written (logIf (write_err e))
            = [response P ran_st]).
    now rewrite written_logIf.
  - split; [| destruct (0 <? String.length (wg_stdout e))%nat; lia].
    set (st := if (0 <? String.length (wg_stdout e))%nat then 1 else 0).
    change (response P st :: written (logIf (write_err e)) = [response P st]).
    now rewrite written_logIf.
  - split; [| lia].
    change (response P (-1) :: written (logIf (write_err e))
            = [response P (-1)]).
    now rewrite written_logIf.
Qed.

Lemma dispatch_never_breaks (v : Vars) (content : string) (e : Env) :
  snd (dispatch P v content e) <> Break.
Proof. dispatch_cases v content e; cbn; discriminate. Qed.

Lemma existsb_logIf (f : Event -> bool) (e : option string) :
  (forall m, f (Log m) = false) -> existsb f (logIf e) = false.
Proof. intros quiet. destruct e; cbn; [now rewrite quiet | reflexivity]. Qed.

(** A verb that is neither found in the joined known actions nor [status]
    is answered with status -1, no tool is called, and the loop goes on. *)
Lemma unknown_verb_is_error (v : Vars) (content : string) (e : Env)
    (verb : string) (more : list string) :
  Fields content = verb :: more ->
  Contains (Join (knownActions v ++ ["connect"; "disconnect"]) "") verb = false ->
  verb <> "status" ->
  dispatch P v content e =
    ((Log (LogIncoming verb) :: Log (LogResponding (-1))
        :: ConnWrite (response P (-1)) (write_err e) :: logIf (write_err e)),
     Next {| command := command v;
             knownActions := knownActions v ++ ["connect"; "disconnect"];
             status := -1; config := config v |}) /\
  existsb callsTool (fst (dispatch P v content e)) = false.
Proof.
  intros fields unknown other.
  assert (dispatch P v content e =
    ((Log (LogIncoming verb) :: Log (LogResponding (-1))
        :: ConnWrite (response P (-1)) (write_err e) :: logIf (write_err e)),
     Next {| command := command v;
             knownActions := knownActions v ++ ["connect"; "disconnect"];
             status := -1; config := config v |})) as run.
  { unfold dispatch. rewrite fields, unknown.
    rewrite andb_false_r. apply String.eqb_neq in other. now rewrite other. }
  rewrite run. split; [reflexivity |].
  cbn [fst existsb callsTool orb]. now apply existsb_logIf.
Qed.

(** A command not yet started, whose tool starts and is collected:
    [execute] returns the exit status of the tool. *)
Lemma execute_started_status (c : Cmd) (w : World) (ws : WaitStatus) :
  Process c = false -> ProcessState c = None ->
  start_err w = None -> wait_res w = inr ws ->
  snd (fst (execute c w)) = ExitStatus ws.
Proof.
  intros fresh uncollected started waited. unfold execute, Start, Wait.
  rewrite fresh, started. cbn [Process negb ProcessState].
  rewrite uncollected, waited.
  destruct (ExitStatus ws =? 0) eqn:clean; cbn [fst snd]; [| reflexivity].
  symmetry. now apply Z.eqb_eq.
Qed.

(** C3 (as amended): a pass that answers writes exactly one frame: the
    status as the character [%c] makes of it, then the delimiter.  The
    status lies between -1 and 255, and from 0 to 127 its character is the
    one byte of that value.  Which status it is follows the branch the
    frame takes: where a command is run (the fresh [wg-quick up] or
    [wg-quick down], or the one left by an earlier frame) it is what
    [execute] returns for it, the exit status of the tool as it is when
    the tool started and was collected; for a status query it is 1 when
    [wg show] printed something and 0 when not; for any other frame it
    is -1. *)
Theorem response_is_status_char (v v' : Vars) (content : string) (e : Env)
    (evs : list Event) :
  dispatch P v content e = (evs, Next v') ->
  written evs =
    [(payload (status v') ++ Fmt.SprintfC (DELIMITER P))%list] /\
  -1 <= status v' <= 255 /\
  (0 <= status v' <= 127 -> payload (status v') = [status v']) /\
  exists action more,
    Fields content = action :: more /\
    let known := (knownActions v ++ ["connect"; "disconnect"])%list in
    let cfg := nth 1 (action :: more) "" in
    if ((1 <? List.length (action :: more))%nat
        && Contains (Join known "") action)%bool
    then
      exists c,
        (if String.eqb action (nth 0 known "")
         then Some (Command "wg-quick" ["up"; cfg])
         else if String.eqb action (nth 1 known "")
         then Some (Command "wg-quick" ["down"; cfg])
         else command v) = Some c /\
        status v' = snd (fst (execute c (world e))) /\
        (forall ws,
            Process c = false -> ProcessState c = None ->
            start_err (world e) = None -> wait_res (world e) = inr ws ->
            status v' = ExitStatus ws)
    else if String.eqb action "status"
    then status v' = (if (0 <? String.length (wg_stdout e))%nat then 1 else 0)
    else status v' = -1.
Proof.
  intros run. pose proof (dispatch_next v v' content e evs run) as [frame range].
  split; [exact frame | split; [exact range | split]];
    [apply payload_one_byte |].
  clear frame range. revert run.
  dispatch_cases v content e; cbn [respond]; intros run;
    inversion run; subst; clear run; exists action, more;
    (split; [reflexivity |]); cbv zeta; rewrite known; cbn [status].
  - exists c. split; [exact chosen | split].
    + now rewrite ran.
    + intros ws fresh uncollected started waited.
      rewrite <- (execute_started_status c (world e) ws
                    fresh uncollected started waited).
      now rewrite ran.
  - rewrite probe. reflexivity.
  - rewrite probe. reflexivity.
Qed.

(** C8: a frame that holds the verb [connect] or [disconnect] and nothing
    else is answered with status -1; neither [Start] nor [Wait] is called,
    and the loop goes on with the next frame. *)
Theorem verb_without_config (v : Vars) (e : Env) (rest : list Env)
    (content : string) (err : option ReadError) (verb : string) :
  read_res e = (content, err) ->
  content <> QUIT_SIGN P ->
  Fields content = [verb] ->
  verb = "connect" \/ verb = "disconnect" ->
  let v' := {| command := command v;
               knownActions := knownActions v ++ ["connect"; "disconnect"];
               status := -1; config := config v |} in
  let evs := (logIf (option_map readErrorText err)
              ++ Log (LogIncoming verb) :: Log (LogResponding (-1))
              :: ConnWrite (response P (-1)) (write_err e)
              :: logIf (write_err e))%list in
  pass P v e = (evs, Next v') /\
  existsb callsRunner evs = false /\
  loop P v (e :: rest) =
    ((evs ++ fst (loop P v' rest))%list, snd (loop P v' rest)).
Proof.
  intros read open fields verbs v' evs.
  assert (pass P v e = (evs, Next v')) as run.
  { unfold pass. rewrite read.
    apply String.eqb_neq in open. rewrite open.
    unfold dispatch. rewrite fields. cbn [List.length Nat.ltb Nat.leb andb].
    destruct verbs; subst verb; reflexivity. }
  split; [exact run | split].
  - subst evs. rewrite existsb_app. cbn [existsb callsRunner orb].
    now rewrite !existsb_logIf.
  - cbn [loop]. rewrite run. now destruct (loop P v' rest).
Qed.

(** C9: a content without any field, the empty one for instance, makes
    the handler index an empty slice: the pass panics and the handler
    ends there. *)
Theorem no_field_panics (v : Vars) (e : Env) (rest : list Env)
    (content : string) (err : option ReadError) :
  read_res e = (content, err) ->
  content <> QUIT_SIGN P ->
  Fields content = [] ->
  loop P v (e :: rest) =
    ((logIf (option_map readErrorText err)
      ++ [Panic "index out of range [0] with length 0"; ConnClose])%list,
     Crashed).
Proof.
  intros read open fields. cbn [loop]. unfold pass. rewrite read.
  apply String.eqb_neq in open. rewrite open.
  unfold dispatch. rewrite fields. now rewrite <- app_assoc.
Qed.

(** C2: the verb [con] is none of the three verbs, yet as the first frame
    of a connection, with a second token, it is taken as known (it occurs
    in [connectdisconnect]); no command was built, and the handler panics
    on the nil command instead of answering -1. *)
Theorem substring_verb_panics (e : Env) (rest : list Env) :
  read_res e = ("con wg0", None) ->
  "con wg0" <> QUIT_SIGN P ->
  handleRequest P (e :: rest) =
    ([Log (LogIncoming "con"); Log (LogMethodFound "con");
      Panic "invalid memory address or nil pointer dereference"; ConnClose],
     Crashed).
Proof.
  intros read open. unfold handleRequest. cbn [loop]. unfold pass.
  rewrite read. apply String.eqb_neq in open. rewrite open. reflexivity.
Qed.

(** C7 (as amended): the handler does not look at what kind of error
    [Read] returned.  It logs the text and goes on, in the same pass, with
    the content that came along, as it would without the error; the pass
    leaves the loop exactly when that content is the quit sign. *)
Theorem read_error_only_logged (v : Vars) (content : string)
    (err : ReadError) (w : World) (out : string) (werr : option string) :
  let failed := {| read_res := (content, Some err); world := w;
                   wg_stdout := out; write_err := werr |} in
  let clean := {| read_res := (content, None); world := w;
                  wg_stdout := out; write_err := werr |} in
  pass P v failed =
    (Log (LogError (readErrorText err)) :: fst (pass P v clean),
     snd (pass P v clean)) /\
  (snd (pass P v failed) = Break <-> content = QUIT_SIGN P).
Proof.
  intros failed clean. unfold pass. cbn [read_res failed clean].
  destruct (String.eqb_spec content (QUIT_SIGN P)) as [quit | open].
  - split; [reflexivity | now split].
  - change (dispatch P v content failed) with (dispatch P v content clean) at 1.
    pose proof (dispatch_never_breaks v content clean) as goes.
    change (dispatch P v content failed) with (dispatch P v content clean).
    destruct (dispatch P v content clean) as [evs fl]. cbn [fst snd] in *.
    split; [reflexivity |]. split; [intros h | intros h]; contradiction.
Qed.

End HandlerFacts.

(* ------------------------------------------------------------------ *)
(** ** Frames, errors and responses at concrete inputs *)

Section HandlerCases.

Import GoStrings Exec Forestd Samples.
Local Open Scope string_scope.
Local Open Scope Z_scope.

(** C3 (the claim as stated fails): the tool exiting with status 2 is
    answered with the byte 2, which is none of 0, 1 and 255; and the status
    -1 of a dispatch error goes out as the three bytes EF BF BD, not as
    the byte 255. *)
Lemma response_outside_closed_set :
  (forall P, written (fst (dispatch P initial "connect wg0" toolExits2)) =
             [2 :: Fmt.SprintfC (DELIMITER P)]) /\
  ~ In 2 [0; 1; 255] /\
  (forall P, written (fst (dispatch P initial "connect" idle)) =
             [239 :: 191 :: 189 :: Fmt.SprintfC (DELIMITER P)]).
Proof.
  split; [reflexivity | split; [| reflexivity]].
  intros [h | [h | [h | []]]]; discriminate.
Qed.

Lemma response_is_status_char_witness :
  exists evs v',
    dispatch lineProto initial "connect wg0" toolExits2 = (evs, Next v') /\
    written evs = [[2; 10]] /\
    status v' = 2 /\
    status v' = ExitStatus (Z.shiftl 2 8).
Proof.
  eexists. eexists. split; [reflexivity |].
  destruct (response_is_status_char lineProto initial _ "connect wg0"
              toolExits2 _ eq_refl)
    as [frame [range [byte [action [more [fields run]]]]]].
  inversion fields; subst action more. cbv zeta in run.
  destruct run as [c [chosen [ran tool]]].
  inversion chosen; subst c.
  split; [exact frame | split; [reflexivity |]].
  exact (tool (Z.shiftl 2 8) eq_refl eq_refl eq_refl eq_refl).
Defined.

Lemma verb_without_config_witness :
  pass lineProto initial (frame "connect") =
    ([Log (LogIncoming "connect"); Log (LogResponding (-1));
      ConnWrite (response lineProto (-1)) None],
     Next {| command := None; knownActions := ["connect"; "disconnect"];
             status := -1; config := "" |}).
Proof.
  apply (verb_without_config lineProto initial (frame "connect") []
           "connect" None "connect").
  - reflexivity.
  - discriminate.
  - reflexivity.
  - left. reflexivity.
Defined.

Lemma no_field_panics_witness :
  loop lineProto initial [frame ""; frame "status"] =
    ([Panic "index out of range [0] with length 0"; ConnClose], Crashed).
Proof.
  apply (no_field_panics lineProto initial (frame "") [frame "status"] "" None).
  - reflexivity.
  - discriminate.
  - reflexivity.
Defined.

Lemma substring_verb_panics_witness :
  handleRequest lineProto [frame "con wg0"; frame "status"] =
    ([Log (LogIncoming "con"); Log (LogMethodFound "con");
      Panic "invalid memory address or nil pointer dereference"; ConnClose],
     Crashed).
Proof.
  apply (substring_verb_panics lineProto (frame "con wg0") [frame "status"]).
  - reflexivity.
  - discriminate.
Defined.

Lemma unknown_verb_is_error_witness :
  dispatch lineProto initial "reboot now" (frame "reboot now") =
    ([Log (LogIncoming "reboot"); Log (LogResponding (-1));
      ConnWrite (response lineProto (-1)) None],
     Next {| command := None; knownActions := ["connect"; "disconnect"];
             status := -1; config := "" |}).
Proof.
  apply (unknown_verb_is_error lineProto initial "reboot now"
           (frame "reboot now") "reboot" ["now"]).
  - reflexivity.
  - reflexivity.
  - discriminate.
Defined.

(** Later in a connection the same verb runs [execute] once more on the
    command of the frame before it: both calls fail, and status 0 comes
    back where -1 is due. *)
Example substring_verb_reuses_command :
  handleRequest lineProto [frame "connect wg0"; frame "con x"] =
    ([Log (LogIncoming "connect"); Log (LogMethodFound "connect");
      Log (LogExecuting ["wg-quick"; "up"; "wg0"]);
      ProcStart ["wg-quick"; "up"; "wg0"] None;
      ProcWait ["wg-quick"; "up"; "wg0"] None;
      Log (LogResponding 0); ConnWrite [0; 10] None;
      Log (LogIncoming "con"); Log (LogMethodFound "con");
      Log (LogExecuting ["wg-quick"; "up"; "wg0"]);
      ProcStart ["wg-quick"; "up"; "wg0"] (Some "exec: already started");
      Log (LogError "exec: already started");
      ProcWait ["wg-quick"; "up"; "wg0"]
        (Some (OtherError "exec: Wait was already called"));
      Log (LogError "exec: Wait was already called");
      Log (LogResponding 0); ConnWrite [0; 10] None],
     Reading {| command := Some {| Args := ["wg-quick"; "up"; "wg0"];
                                   Process := true;
                                   ProcessState := Some 0 |};
                knownActions := ["connect"; "disconnect";
                                 "connect"; "disconnect"];
                status := 0; config := "x" |}).
Proof. reflexivity. Qed.

(** C7 (the claim as stated fails): take the empty content, once with an
    I/O error and once with a decode error.  Whatever the protocol
    constants, the handler does not both return on the first and keep
    reading on the second. *)
Lemma error_kinds_not_told_apart :
  ~ exists P,
      snd (loop P initial [failing (IOError "connection reset by peer")])
        = Returned /\
      exists v,
        snd (loop P initial [failing (DecodeError "malformed frame")])
          = Reading v.
Proof.
  intros [P [closes [v reads]]]. revert closes reads.
  cbn [loop]. unfold pass. cbn [read_res failing].
  destruct (String.eqb "" (QUIT_SIGN P)); cbn; discriminate.
Qed.

End HandlerCases.

(* ------------------------------------------------------------------ *)
(** ** Process calls in flight *)

Section InFlightFacts.

Import GoStrings Exec Forestd Daemon Samples.
Local Open Scope string_scope.
Local Open Scope Z_scope.

Lemma serialFrom_app (b : bool) (t1 t2 : list Event) :
  serialFrom b (t1 ++ t2) =
  (serialFrom b t1 && serialFrom (fold_left inFlight t1 b) t2)%bool.
Proof.
  revert b. induction t1 as [| ev t1 IH]; intros b; cbn [app serialFrom fold_left].
  - reflexivity.
  - rewrite IH. now rewrite andb_assoc.
Qed.

Lemma settled_nil : settled [].
Proof. now split. Qed.

Lemma settled_app (t1 t2 : list Event) :
  settled t1 -> settled t2 -> settled (t1 ++ t2).
Proof.
  intros [s1 f1] [s2 f2]. split.
  - now rewrite serialFrom_app, s1, f1, s2.
  - now rewrite fold_left_app, f1.
Qed.

Lemma settled_log (m : LogMsg) (t : list Event) :
  settled t -> settled (Log m :: t).
Proof. intros [s f]. now split. Qed.

Lemma settled_logIf (e : option string) : settled (logIf e).
Proof. destruct e; now split. Qed.

Lemma settled_execute (c : Cmd) (w : World) :
  settled (fst (fst (execute c w))).
Proof.
  unfold execute.
  destruct (Start c w) as [c1 [e1 |]]; destruct (Wait c1 w) as [c2 [[ws | m] |]];
    cbn [fst snd logIf app]; now split.
Qed.

Lemma settled_respond (P : Proto) (v : Vars) (e : Env) :
  settled (fst (respond P v e)).
Proof. unfold respond. cbn [fst app]. destruct (write_err e); now split. Qed.

Lemma settled_dispatch (P : Proto) (v : Vars) (content : string) (e : Env) :
  settled (fst (dispatch P v content e)).
Proof.
  unfold dispatch.
  destruct (Fields content) as [| action more]; [now split |].
  destruct ((1 <? List.length (action :: more))%nat
            && Contains (Join (knownActions v ++ ["connect"; "disconnect"]) "")
                        action)%bool.
  - match goal with
    | |- context [match ?chosen with Some _ => _ | None => _ end] =>
      destruct chosen as [c |]; [| now split]
    end.
    pose proof (settled_execute c (world e)) as ran.
    destruct (execute c (world e)) as [[evs st] c']. cbn [fst] in ran.
    match goal with
    | |- context [respond P ?v' e] =>
      pose proof (settled_respond P v' e) as out;
      destruct (respond P v' e) as [outs fl]
    end.
    cbn [fst] in *. do 3 apply settled_log. now apply settled_app.
  - destruct (String.eqb action "status").
    + cbn [isActiveWireGuard].
      match goal with
      | |- context [respond P ?v' e] =>
        pose proof (settled_respond P v' e) as out;
        destruct (respond P v' e) as [outs fl]
      end.
      cbn [fst app] in *. apply settled_log.
      destruct out as [s f]. now split.
    + match goal with
      | |- context [respond P ?v' e] =>
        pose proof (settled_respond P v' e) as out;
        destruct (respond P v' e) as [outs fl]
      end.
      cbn [fst] in *. now apply settled_log.
Qed.

Lemma settled_pass (P : Proto) (v : Vars) (e : Env) :
  settled (fst (pass P v e)).
Proof.
  unfold pass. destruct (read_res e) as [content err].
  destruct (String.eqb content (QUIT_SIGN P)); cbn [fst].
  - apply settled_app; [apply settled_logIf | now split].
  - pose proof (settled_dispatch P v content e) as run.
    destruct (dispatch P v content e) as [evs fl]. cbn [fst] in *.
    apply settled_app; [apply settled_logIf | exact run].
Qed.

Lemma settled_loop (P : Proto) (envs : list Env) :
  forall v, settled (fst (loop P v envs)).
Proof.
  induction envs as [| e rest IH]; intros v; cbn [loop].
  - apply settled_nil.
  - pose proof (settled_pass P v e) as run.
    destruct (pass P v e) as [evs [v' | |]]; cbn [fst] in run.
    + specialize (IH v'). destruct (loop P v' rest) as [evs' out].
      cbn [fst] in *. now apply settled_app.
    + cbn [fst]. apply settled_app; [exact run | now split].
    + cbn [fst]. apply settled_app; [exact run | now split].
Qed.

Lemma upFrame_trace (P : Proto) :
  exists cfg,
    fst (handleRequest P [frame (upFrame P)]) =
      [Log (LogIncoming "connect"); Log (LogMethodFound "connect");
       Log (LogExecuting ["wg-quick"; "up"; cfg]);
       ProcStart ["wg-quick"; "up"; cfg] None;
       ProcWait ["wg-quick"; "up"; cfg] None;
       Log (LogResponding 0); ConnWrite (response P 0) None].
Proof.
  unfold handleRequest, upFrame. cbn [loop]. unfold pass. cbn [read_res frame].
  destruct (String.eqb_spec "connect wg0" (QUIT_SIGN P)) as [quit | open].
  - rewrite <- quit. now exists "wg1".
  - apply String.eqb_neq in open. rewrite open. now exists "wg0".
Qed.

Lemma statusFrame_trace (P : Proto) :
  fst (handleRequest P [frame (statusFrame P)]) =
    [Log (LogIncoming "status"); WgShow ""; Log (LogResponding 0);
     ConnWrite (response P 0) None].
Proof.
  unfold handleRequest, statusFrame. cbn [loop]. unfold pass.
  cbn [read_res frame].
  destruct (String.eqb_spec "status" (QUIT_SIGN P)) as [quit | open].
  - now rewrite <- quit.
  - apply String.eqb_neq in open. now rewrite open.
Qed.

(** Two connections, one bring-up each: the second tool is started while
    the first is still awaited. *)
Lemma overlapping_run (P : Proto) :
  exists g,
    interleave (tag 1 (fst (handleRequest P [frame (upFrame P)])))
               (tag 2 (fst (handleRequest P [frame (upFrame P)]))) g /\
    overlapAt g 8 1 2 = true.
Proof.
  destruct (upFrame_trace P) as [cfg trace]. rewrite trace.
  set (up := ["wg-quick"; "up"; cfg]).
  exists (tag 1 [Log (LogIncoming "connect"); Log (LogMethodFound "connect");
                 Log (LogExecuting up); ProcStart up None]
          ++ tag 2 [Log (LogIncoming "connect"); Log (LogMethodFound "connect");
                    Log (LogExecuting up); ProcStart up None]
          ++ tag 1 [ProcWait up None; Log (LogResponding 0);
                    ConnWrite (response P 0) None]
          ++ tag 2 [ProcWait up None; Log (LogResponding 0);
                    ConnWrite (response P 0) None])%list.
  split; [| reflexivity].
  cbn [tag map app].
  do 4 apply interleave_left. do 4 apply interleave_right.
  do 3 apply interleave_left. do 3 apply interleave_right.
  apply interleave_nil.
Qed.

(** A bring-up on one connection, a status query on another: [wg show]
    runs while the tool of the first is awaited. *)
Lemma probing_run (P : Proto) :
  exists g,
    interleave (tag 1 (fst (handleRequest P [frame (upFrame P)])))
               (tag 2 (fst (handleRequest P [frame (statusFrame P)]))) g /\
    probedDuring g 5 1 2 = true.
Proof.
  destruct (upFrame_trace P) as [cfg trace]. rewrite trace.
  rewrite statusFrame_trace.
  set (up := ["wg-quick"; "up"; cfg]).
  exists (tag 1 [Log (LogIncoming "connect"); Log (LogMethodFound "connect");
                 Log (LogExecuting up); ProcStart up None]
          ++ tag 2 [Log (LogIncoming "status"); WgShow "";
                    Log (LogResponding 0); ConnWrite (response P 0) None]
          ++ tag 1 [ProcWait up None; Log (LogResponding 0);
                    ConnWrite (response P 0) None])%list.
  split; [| reflexivity].
  cbn [tag map app].
  do 4 apply interleave_left. do 4 apply interleave_right.
  do 3 apply interleave_left. apply interleave_nil.
Qed.

(** C1 (the claim as stated fails): whatever the protocol constants, it is
    not so that in every run of two connections the process calls of the
    two never are in flight together. *)
Lemma executions_may_overlap :
  ~ exists P,
      forall envs1 envs2 g k,
        interleave (tag 1 (fst (handleRequest P envs1)))
                   (tag 2 (fst (handleRequest P envs2))) g ->
        overlapAt g k 1 2 = false.
Proof.
  intros [P never]. destruct (overlapping_run P) as [g [run both]].
  apply never with (k := 8%nat) in run. congruence.
Qed.

(** C1 (as amended): on one connection no tool is started while another
    one started there is still awaited; across two connections nothing
    orders the process calls, so two of them can be in flight together,
    and a status query can be served while a tool runs. *)
Theorem serial_per_connection_only :
  (forall P envs, serialFrom false (fst (handleRequest P envs)) = true) /\
  (forall P, exists envs1 envs2 g k,
      interleave (tag 1 (fst (handleRequest P envs1)))
                 (tag 2 (fst (handleRequest P envs2))) g /\
      overlapAt g k 1 2 = true) /\
  (forall P, exists envs1 envs2 g k,
      interleave (tag 1 (fst (handleRequest P envs1)))
                 (tag 2 (fst (handleRequest P envs2))) g /\
      probedDuring g k 1 2 = true).
Proof.
  split; [| split].
  - intros P envs. apply (settled_loop P envs initial).
  - intros P. destruct (overlapping_run P) as [g run].
    now exists [frame (upFrame P)], [frame (upFrame P)], g, 8%nat.
  - intros P. destruct (probing_run P) as [g run].
    now exists [frame (upFrame P)], [frame (statusFrame P)], g, 5%nat.
Qed.

End InFlightFacts.

(* ------------------------------------------------------------------ *)
(** ** A connection from its first frame on *)

Section ConnectionFacts.

Import GoStrings Exec Forestd Connection Samples.
Local Open Scope string_scope.
Local Open Scope Z_scope.

Variable P : Proto.

Lemma append_empty (s : string) : s ++ "" = s.
Proof. induction s as [| c s IH]; cbn; [reflexivity | now rewrite IH]. Qed.

Lemma append_assoc (a b c : string) : (a ++ b) ++ c = a ++ (b ++ c).
Proof. induction a as [| x a IH]; cbn; [reflexivity | now rewrite IH]. Qed.

Lemma Join_cons (x : string) (l : list string) :
  Join (x :: l) "" = x ++ Join l "".
Proof.
  unfold Join. destruct l as [| y l]; cbn [String.concat].
  - now rewrite append_empty.
  - reflexivity.
Qed.

Lemma Join_app (a b : list string) :
  Join (a ++ b) "" = Join a "" ++ Join b "".
Proof.
  induction a as [| x a IH]; [reflexivity |].
  cbn [app]. now rewrite !Join_cons, IH, append_assoc.
Qed.

Lemma Contains_app_r (a b sub : string) :
  Contains b sub = true -> Contains (a ++ b) sub = true.
Proof.
  intros inside. induction a as [| c a IH]; [exact inside |].
  cbn [append Contains]. rewrite IH. apply orb_true_r.
Qed.

Lemma knownAfter_snoc (n : nat) :
  (knownAfter n ++ ["connect"; "disconnect"])%list = knownAfter (S n).
Proof.
  induction n as [| n IH]; [reflexivity |].
  change ("connect" :: "disconnect"
            :: (knownAfter n ++ ["connect"; "disconnect"])%list
          = "connect" :: "disconnect" :: knownAfter (S n)).
  now rewrite IH.
Qed.

Lemma status_not_joined (n : nat) :
  Contains (Join (knownAfter n) "") "status" = false.
Proof.
  induction n as [| n IH]; [reflexivity |].
  change (knownAfter (S n)) with ("connect" :: "disconnect" :: knownAfter n).
  rewrite !Join_cons. cbn. exact IH.
Qed.

(** What one pass that goes on does to the variables. *)
Lemma dispatch_known (v v' : Vars) (content : string) (e : Env)
    (evs : list Event) :
  dispatch P v content e = (evs, Next v') ->
  knownActions v' = (knownActions v ++ ["connect"; "disconnect"])%list.
Proof.
  unfold dispatch.
  destruct (Fields content) as [| action more]; [discriminate |].
  destruct ((1 <? List.length (action :: more))%nat
            && Contains (Join (knownActions v ++ ["connect"; "disconnect"]) "")
                        action)%bool.
  - match goal with
    | |- context [match ?chosen with Some _ => _ | None => _ end] =>
      destruct chosen as [c |]; [| discriminate]
    end.
    destruct (execute c (world e)) as [[ran st] c']. cbn [respond].
    intros run. now inversion run.
  - destruct (String.eqb action "status"); cbn [isActiveWireGuard respond];
      intros run; now inversion run.
Qed.

Lemma pass_next (v v' : Vars) (e : Env) (evs : list Event) :
  pass P v e = (evs, Next v') ->
  exists dev,
    dispatch P v (fst (read_res e)) e = (dev, Next v') /\
    evs = (logIf (option_map readErrorText (snd (read_res e))) ++ dev)%list /\
    fst (read_res e) <> QUIT_SIGN P.
Proof.
  unfold pass. destruct (read_res e) as [content err]. cbn [fst snd].
  destruct (String.eqb_spec content (QUIT_SIGN P)) as [quit | open];
    [discriminate |].
  destruct (dispatch P v content e) as [dev fl]. intros run.
  inversion run; subst. now exists dev.
Qed.

Lemma loop_known (envs : list Env) :
  forall v v' t,
    loop P v envs = (t, Reading v') ->
    knownActions v' = (knownActions v ++ knownAfter (List.length envs))%list.
Proof.
  induction envs as [| e rest IH]; intros v v' t; cbn [loop].
  - intros run. inversion run. cbn. now rewrite app_nil_r.
  - destruct (pass P v e) as [evs [v1 | |]] eqn:first; try discriminate.
    destruct (loop P v1 rest) as [evs' out] eqn:later.
    intros run. inversion run; subst.
    apply pass_next in first. destruct first as [dev [step _]].
    apply dispatch_known in step.
    rewrite (IH v1 v' evs' later), step, <- app_assoc. reflexivity.
Qed.

Lemma known_actions_so_far (envs : list Env) (t : list Event) (v : Vars) :
  handleRequest P envs = (t, Reading v) ->
  knownActions v = knownAfter (List.length envs).
Proof. intros run. now apply loop_known in run. Qed.

(** The known actions grow with every frame: a handler that has
    dispatched [n] frames and reads on holds [connect], [disconnect]
    [n] times over, [2 * n] entries. *)
Theorem known_actions_grow (envs : list Env) (t : list Event) (v : Vars) :
  handleRequest P envs = (t, Reading v) ->
  knownActions v = knownAfter (List.length envs) /\
  List.length (knownActions v) = (2 * List.length envs)%nat.
Proof.
  intros run. apply loop_known in run. cbn [initial knownActions app] in run.
  split; [exact run |]. rewrite run. clear run.
  induction (List.length envs) as [| n IH]; [reflexivity |].
  change (knownAfter (S n)) with ("connect" :: "disconnect" :: knownAfter n).
  cbn [List.length]. rewrite IH. lia.
Qed.

Lemma joined_has_verb (n : nat) (verb : string) :
  verb = "connect" \/ verb = "disconnect" ->
  Contains (Join (knownAfter (S n)) "") verb = true.
Proof.
  change (knownAfter (S n)) with ("connect" :: "disconnect" :: knownAfter n).
  rewrite !Join_cons. intros [is_up | is_down]; subst verb.
  - reflexivity.
  - apply Contains_app_r. cbn.
    now destruct (Join (knownAfter n) "").
Qed.

(** At any point of a connection, a frame [connect cfg ...] runs
    [wg-quick up cfg] as a command of its own and [disconnect cfg ...]
    runs [wg-quick down cfg]; further tokens are dropped, and the answer
    is the status [execute] returns. *)
Theorem verb_runs_wg_quick (envs : list Env) (t : list Event) (v : Vars)
    (e : Env) (content : string) (err : option ReadError)
    (verb sub cfg : string) (more : list string) :
  handleRequest P envs = (t, Reading v) ->
  read_res e = (content, err) ->
  content <> QUIT_SIGN P ->
  Fields content = verb :: cfg :: more ->
  verb = "connect" /\ sub = "up" \/ verb = "disconnect" /\ sub = "down" ->
  let ran := execute (Command "wg-quick" [sub; cfg]) (world e) in
  pass P v e =
    ((logIf (option_map readErrorText err)
      ++ Log (LogIncoming verb) :: Log (LogMethodFound verb)
         :: Log (LogExecuting ["wg-quick"; sub; cfg])
         :: fst (fst ran)
      ++ Log (LogResponding (snd (fst ran)))
         :: ConnWrite (response P (snd (fst ran))) (write_err e)
         :: logIf (write_err e))%list,
     Next {| command := Some (snd ran);
             knownActions := knownAfter (S (List.length envs));
             status := snd (fst ran); config := cfg |}).
Proof.
  intros history read open fields verbs ran.
  apply known_actions_so_far in history.
  unfold pass. rewrite read. apply String.eqb_neq in open. rewrite open.
  unfold dispatch. rewrite fields, history, knownAfter_snoc.
  rewrite joined_has_verb by tauto.
  cbn [List.length Nat.ltb Nat.leb andb nth].
  change (knownAfter (S (List.length envs)))
    with ("connect" :: "disconnect" :: knownAfter (List.length envs)).
  cbn [nth].
  destruct verbs as [[is_up is_sub] | [is_down is_sub]]; subst verb sub;
    cbn [String.eqb Ascii.eqb Bool.eqb andb]; subst ran;
    destruct (execute (Command "wg-quick" [_; cfg]) (world e)) as [[evs st] c'];
    reflexivity.
Qed.

(** At any point of a connection, a frame whose first token is [status]
    is answered from [wg show] alone: 1 when it printed something, 0 when
    not; the command variable is left as it was, whatever follows the
    verb. *)
Theorem status_probes_wireguard (envs : list Env) (t : list Event)
    (v : Vars) (e : Env) (content : string) (err : option ReadError)
    (more : list string) :
  handleRequest P envs = (t, Reading v) ->
  read_res e = (content, err) ->
  content <> QUIT_SIGN P ->
  Fields content = "status" :: more ->
  let st := if (0 <? String.length (wg_stdout e))%nat then 1 else 0 in
  pass P v e =
    ((logIf (option_map readErrorText err)
      ++ [Log (LogIncoming "status"); WgShow (wg_stdout e);
          Log (LogResponding st); ConnWrite (response P st) (write_err e)]
      ++ logIf (write_err e))%list,
     Next {| command := command v;
             knownActions := knownAfter (S (List.length envs));
             status := st; config := config v |}).
Proof.
  intros history read open fields st.
  apply known_actions_so_far in history.
  unfold pass. rewrite read. apply String.eqb_neq in open. rewrite open.
  unfold dispatch. rewrite fields, history, knownAfter_snoc.
  rewrite status_not_joined, andb_false_r. reflexivity.
Qed.

(** The handler works through the answers of the outside in order. *)
Lemma loop_app (a b : list Env) :
  forall v,
    loop P v (a ++ b) =
    match loop P v a with
    | (t, Reading v') =>
      ((t ++ fst (loop P v' b))%list, snd (loop P v' b))
    | ended => ended
    end.
Proof.
  induction a as [| e a IH]; intros v; cbn [app loop].
  - now destruct (loop P v b).
  - destruct (pass P v e) as [evs [v1 | |]]; [| reflexivity | reflexivity].
    rewrite IH. destruct (loop P v1 a) as [t [v' | |]]; [| reflexivity ..].
    destruct (loop P v' b) as [t' out]. cbn [fst snd].
    now rewrite app_assoc.
Qed.

(** The quit sign, at any point of a connection, makes the handler
    return: the connection is closed, no frame is written for it, and
    what arrives after it is not read. *)
Theorem quit_sign_ends_handler (v v' : Vars) (before rest : list Env)
    (t : list Event) (e : Env) (err : option ReadError) :
  loop P v before = (t, Reading v') ->
  read_res e = (QUIT_SIGN P, err) ->
  loop P v (before ++ e :: rest) =
    ((t ++ logIf (option_map readErrorText err)
        ++ [Log LogDisconnected; ConnClose])%list, Returned) /\
  written (fst (loop P v (before ++ e :: rest))) = written t.
Proof.
  intros history read.
  assert (loop P v (before ++ e :: rest) =
    ((t ++ logIf (option_map readErrorText err)
        ++ [Log LogDisconnected; ConnClose])%list, Returned)) as run.
  { rewrite loop_app, history. cbn [loop]. unfold pass. rewrite read.
    rewrite String.eqb_refl. cbn [fst snd]. now rewrite <- app_assoc. }
  rewrite run. split; [reflexivity |]. cbn [fst].
  rewrite !written_app, written_logIf. cbn. now rewrite app_nil_r.
Qed.

(** Once the handler has returned or panicked, nothing that arrives
    later is read, run or answered. *)
Theorem ended_handler_is_final (v : Vars) (before rest : list Env)
    (t : list Event) (out : Outcome) :
  loop P v before = (t, out) ->
  out = Returned \/ out = Crashed ->
  loop P v (before ++ rest) = (t, out).
Proof.
  intros history ended. rewrite loop_app, history.
  now destruct ended; subst out.
Qed.

Lemma dispatch_panic_writes_nothing (v : Vars) (content : string) (e : Env)
    (evs : list Event) :
  dispatch P v content e = (evs, Panicked) -> written evs = [].
Proof.
  unfold dispatch.
  destruct (Fields content) as [| action more];
    [intros run; now inversion run |].
  destruct ((1 <? List.length (action :: more))%nat
            && Contains (Join (knownActions v ++ ["connect"; "disconnect"]) "")
                        action)%bool.
  - match goal with
    | |- context [match ?chosen with Some _ => _ | None => _ end] =>
      destruct chosen as [c |]; [| intros run; now inversion run]
    end.
    destruct (execute c (world e)) as [[ran st] c']. cbn [respond].
    discriminate.
  - destruct (String.eqb action "status"); cbn [isActiveWireGuard respond];
      discriminate.
Qed.

Lemma pass_written (v : Vars) (e : Env) (evs : list Event) (fl : Flow) :
  pass P v e = (evs, fl) ->
  match fl with
  | Next v' => written evs = [response P (status v')]
               /\ -1 <= status v' <= 255
  | _ => written evs = []
  end.
Proof.
  unfold pass. destruct (read_res e) as [content err].
  destruct (String.eqb content (QUIT_SIGN P)).
  - intros run. inversion run. rewrite written_app, written_logIf.
    reflexivity.
  - destruct (dispatch P v content e) as [dev dfl] eqn:step.
    intros run. inversion run; subst. rewrite written_app, written_logIf.
    cbn [app]. destruct fl as [v' | |].
    + now apply dispatch_next in step.
    + exfalso. apply (dispatch_never_breaks P v content e).
      now rewrite step.
    + now apply dispatch_panic_writes_nothing in step.
Qed.

(** Request and response alternate: every frame written is the response
    to one frame read, with a status between -1 and 255.  A handler that
    reads on has answered every frame it was given; one that has ended has
    left the last frame it read (the quit sign, or the frame of the panic)
    without an answer. *)
Theorem one_response_per_frame (envs : list Env) :
  forall (v : Vars) (t : list Event) (out : Outcome),
    loop P v envs = (t, out) ->
    (forall f, In f (written t) ->
               exists st, -1 <= st <= 255 /\ f = response P st) /\
    match out with
    | Reading _ => List.length (written t) = List.length envs
    | _ => (List.length (written t) < List.length envs)%nat
    end.
Proof.
  induction envs as [| e rest IH]; intros v t out; cbn [loop].
  - intros run. inversion run. split; [intros f [] | reflexivity].
  - destruct (pass P v e) as [evs fl] eqn:first.
    apply pass_written in first. destruct fl as [v1 | |].
    + destruct first as [frame range].
      destruct (loop P v1 rest) as [evs' out'] eqn:later.
      intros run. inversion run; subst.
      destruct (IH v1 evs' out later) as [frames count].
      rewrite written_app, frame. cbn [app List.length]. split.
      * intros f [here | there]; [| now apply frames].
        exists (status v1). now split.
      * destruct out; lia.
    + intros run. inversion run. rewrite written_app, first.
      cbn [app written flat_map List.length]. split; [intros f [] | lia].
    + intros run. inversion run. rewrite written_app, first.
      cbn [app written flat_map List.length]. split; [intros f [] | lia].
Qed.

End ConnectionFacts.

Section ConnectionCases.

Import GoStrings Exec Forestd Connection Samples.
Local Open Scope string_scope.
Local Open Scope Z_scope.

Lemma known_actions_grow_witness :
  knownActions
    {| command := None;
       knownActions := ["connect"; "disconnect"; "connect"; "disconnect"];
       status := -1; config := "" |} = knownAfter 2 /\
  List.length ["connect"; "disconnect"; "connect"; "disconnect"] = 4%nat.
Proof.
  apply (known_actions_grow lineProto [frame "status"; frame "reboot"]
           (fst (handleRequest lineProto [frame "status"; frame "reboot"]))).
  reflexivity.
Defined.

Lemma verb_runs_wg_quick_witness :
  pass lineProto
    {| command := None; knownActions := ["connect"; "disconnect"];
       status := 0; config := "" |}
    (frame "disconnect wg0 now") =
    ([Log (LogIncoming "disconnect"); Log (LogMethodFound "disconnect");
      Log (LogExecuting ["wg-quick"; "down"; "wg0"]);
      ProcStart ["wg-quick"; "down"; "wg0"] None;
      ProcWait ["wg-quick"; "down"; "wg0"] None;
      Log (LogResponding 0); ConnWrite [0; 10] None],
     Next {| command := Some {| Args := ["wg-quick"; "down"; "wg0"];
                                Process := true; ProcessState := Some 0 |};
             knownActions := ["connect"; "disconnect"; "connect"; "disconnect"];
             status := 0; config := "wg0" |}).
Proof.
  apply (verb_runs_wg_quick lineProto [frame "status"]
           (fst (handleRequest lineProto [frame "status"])) _
           (frame "disconnect wg0 now") "disconnect wg0 now" None
           "disconnect" "down" "wg0" ["now"]).
  - reflexivity.
  - reflexivity.
  - discriminate.
  - reflexivity.
  - right. split; reflexivity.
Defined.

Lemma status_probes_wireguard_witness :
  pass lineProto
    {| command := None; knownActions := ["connect"; "disconnect"];
       status := -1; config := "" |}
    (frame "status of wg0") =
    ([Log (LogIncoming "status"); WgShow ""; Log (LogResponding 0);
      ConnWrite [0; 10] None],
     Next {| command := None;
             knownActions := ["connect"; "disconnect"; "connect"; "disconnect"];
             status := 0; config := "" |}).
Proof.
  apply (status_probes_wireguard lineProto [frame "reboot"]
           (fst (handleRequest lineProto [frame "reboot"]))
           {| command := None; knownActions := ["connect"; "disconnect"];
              status := -1; config := "" |}
           (frame "status of wg0") "status of wg0" None ["of"; "wg0"]).
  - reflexivity.
  - reflexivity.
  - discriminate.
  - reflexivity.
Defined.

Lemma quit_sign_ends_handler_witness :
  loop lineProto initial ([frame "status"] ++ frame "quit!" :: [frame "status"])
  = ((fst (loop lineProto initial [frame "status"])
      ++ [] ++ [Log LogDisconnected; ConnClose])%list, Returned) /\
  written (fst (loop lineProto initial
                  ([frame "status"] ++ frame "quit!" :: [frame "status"])))
  = written (fst (loop lineProto initial [frame "status"])).
Proof.
  apply (quit_sign_ends_handler lineProto initial
           {| command := None; knownActions := ["connect"; "disconnect"];
              status := 0; config := "" |}
           [frame "status"] [frame "status"]
           (fst (loop lineProto initial [frame "status"]))
           (frame "quit!") None).
  - reflexivity.
  - reflexivity.
Defined.

Lemma ended_handler_is_final_witness :
  loop lineProto initial ([frame ""] ++ [frame "status"]) =
    ([Panic "index out of range [0] with length 0"; ConnClose], Crashed).
Proof.
  apply (ended_handler_is_final lineProto initial [frame ""] [frame "status"]).
  - reflexivity.
  - right. reflexivity.
Defined.

Lemma one_response_per_frame_witness :
  (forall f,
      In f (written (fst (loop lineProto initial
                            [frame "status"; frame "connect"; frame "quit!"]))) ->
      exists st, -1 <= st <= 255 /\ f = response lineProto st) /\
  (List.length
     (written (fst (loop lineProto initial
                      [frame "status"; frame "connect"; frame "quit!"])))
   < 3)%nat.
Proof.
  apply (one_response_per_frame lineProto
           [frame "status"; frame "connect"; frame "quit!"] initial _ Returned).
  reflexivity.
Defined.

End ConnectionCases.

(* ------------------------------------------------------------------ *)
(** ** The status on the wire and the status of [execute] *)

Section StatusFacts.

Import Exec Forestd.
Local Open Scope string_scope.
Local Open Scope Z_scope.

(** The statuses from -1 to 255, numbered from 0. *)
Lemma status_by_number (st : Z) :
  -1 <= st <= 255 -> In (Z.to_nat (st + 1)) (seq 0 257).
Proof. intros range. apply in_seq. lia. Qed.

Lemma payload_widths_checked :
  forallb
    (fun n =>
       let st := Z.of_nat n - 1 in
       Nat.eqb (List.length (payload st))
               (if (st <? 0)%Z then 3%nat
                else if (st <=? 127)%Z then 1%nat else 2%nat)
       && (negb (128 <=? st)
           || match payload st with
              | [b1; b2] => (b1 =? 192 + st / 64) && (b2 =? 128 + st mod 64)
              | _ => false
              end))%bool
    (seq 0 257) = true.
Proof. vm_compute. reflexivity. Qed.

(** How many bytes the status takes on the wire: one from 0 to 127, two
    for an exit status from 128 to 255 (the bytes [192 + st / 64] and
    [128 + st mod 64]), three for -1. *)
Theorem payload_width (st : Z) :
  -1 <= st <= 255 ->
  List.length (payload st) =
    (if st <? 0 then 3%nat else if st <=? 127 then 1%nat else 2%nat) /\
  (128 <= st -> payload st = [192 + st / 64; 128 + st mod 64]).
Proof.
  intros range.
  pose proof (proj1 (forallb_forall _ _) payload_widths_checked
                _ (status_by_number st range)) as checked.
  cbv beta zeta in checked. rewrite Z2Nat.id in checked by lia.
  replace (st + 1 - 1) with st in checked by lia.
  apply andb_true_iff in checked. destruct checked as [width bytes].
  apply Nat.eqb_eq in width. split; [exact width |].
  intros high. apply Z.leb_le in high. rewrite high in bytes.
  cbn [negb orb] in bytes.
  destruct (payload st) as [| b1 [| b2 [| b3 more]]]; try discriminate.
  apply andb_true_iff in bytes. destruct bytes as [first second].
  apply Z.eqb_eq in first, second. now subst.
Qed.

Lemma payload_width_witness :
  List.length (payload 200) = 2%nat /\
  (128 <= 200 -> payload 200 = [192 + 200 / 64; 128 + 200 mod 64]).
Proof. apply (payload_width 200). lia. Defined.

(** [execute] on a command of its own gives a status other than 0 only
    when the tool was started and [Wait] collected it with an exit status
    other than 0, and then gives that exit status; whatever fails before
    (the start, the wait itself) gives 0. *)
Theorem execute_nonzero_iff (name : string) (arg : list string) (w : World) :
  snd (fst (execute (Command name arg) w)) <> 0 <->
  start_err w = None /\
  exists ws,
    wait_res w = inr ws /\ ExitStatus ws <> 0 /\
    snd (fst (execute (Command name arg) w)) = ExitStatus ws.
Proof.
  unfold execute, Start, Wait. cbn [Process Command negb].
  destruct (start_err w) as [e |]; cbn [Process negb ProcessState fst snd].
  - split; [intros none; now contradiction none |].
    intros [started _]. discriminate.
  - destruct (wait_res w) as [e | ws]; cbn [fst snd].
    + split; [intros none; now contradiction none |].
      intros [_ [ws [waited _]]]. discriminate.
    + destruct (Z.eqb_spec (ExitStatus ws) 0) as [clean | failed]; cbn [fst snd].
      * split; [intros none; now contradiction none |].
        intros [_ [ws' [waited [nonzero _]]]]. inversion waited; subst.
        contradiction.
      * split; [| intros _; exact failed].
        intros _. split; [reflexivity |]. now exists ws.
Qed.

End StatusFacts.

(* ------------------------------------------------------------------ *)
(** ** The session gate, continued *)

Section GateTable.

Import Actions GoTime Fvpn Samples.

Lemma expired_gate (b : BillingFeature) (location : Location)
    (now : Time) (persist : bool) :
  ExpiryDate b < now ->
  exists line,
    (line = LocationUnavailable \/ line = SessionOver) /\
    upAction b location now persist =
      [Println line; Println KeepUsing; OsExit 1].
Proof.
  intros late. apply After_lt in late. unfold upAction. rewrite late.
  destruct (IsPremiumLocation location && String.eqb (BundleId b) premium)%bool;
    eexists; (split; [| reflexivity]); [now left | now right].
Qed.


(** The five-minute line is printed exactly when the expiry date is not
    passed, the bundle is the freemium one and the whole minutes left,
    [int(left.Minutes())], are fewer than 5; it is never printed together
    with the three-day line. *)
Theorem five_minutes_iff (b : BillingFeature) (location : Location)
    (now : Time) (persist : bool) :
  (In (Println LessThan5Minutes) (upAction b location now persist) <->
   now <= ExpiryDate b /\ BundleId b = freemium /\
   toInt (Minutes (Sub (ExpiryDate b) now)) < 5) /\
  ~ (In (Println LessThan5Minutes) (upAction b location now persist) /\
     In (Println EndsIn3Days) (upAction b location now persist)).
Proof.
  destruct (Z.lt_ge_cases (ExpiryDate b) now) as [late | alive].
  - destruct (expired_gate b location now persist late) as [line [which run]].
    rewrite run. split; [split |].
    + cbn [In]. destruct which; subst line; intuition discriminate.
    + lia.
    + cbn [In]. destruct which; subst line; intuition discriminate.
  - rewrite upAction_not_expired by exact alive.
    destruct (String.eqb_spec (BundleId b) freemium) as [free | paid];
      destruct (Z.ltb_spec (toInt (Minutes (Sub (ExpiryDate b) now))) 5)
        as [short | long]; cbn [andb].
    + split; [split; [now intros _ | intros _; now left] |].
      cbn [app In]. intuition discriminate.
    + destruct ((daysLeft (Sub (ExpiryDate b) now) <? 3)
                && String.eqb (BundleId b) premium)%bool; cbn [app In];
        (split; [split; [intuition discriminate | lia] | intuition discriminate]).
    + destruct ((daysLeft (Sub (ExpiryDate b) now) <? 3)
                && String.eqb (BundleId b) premium)%bool; cbn [app In];
        (split; [split; [intuition discriminate | tauto] | intuition discriminate]).
    + destruct ((daysLeft (Sub (ExpiryDate b) now) <? 3)
                && String.eqb (BundleId b) premium)%bool; cbn [app In];
        (split; [split; [intuition discriminate | tauto] | intuition discriminate]).
Qed.

End GateTable.

(* ------------------------------------------------------------------ *)
(** ** Wrappers, the lookup of [location set] and the pick of [login] *)

Section LocationSetFacts.

Import GoTime Fvpn LocationSet.
Local Open Scope string_scope.
Local Open Scope Z_scope.

Lemma wrappers_from (locations : list Actions.Location) :
  forall acc,
    fold_left
      (fun wrappers location =>
         (wrappers ++ [{| Location := location;
                          Premium := Actions.IsPremiumLocation location |}])%list)
      locations acc = (acc ++ map wrap locations)%list.
Proof.
  induction locations as [| l rest IH]; intros acc; cbn [fold_left map].
  - now rewrite app_nil_r.
  - rewrite IH, <- app_assoc. reflexivity.
Qed.

Lemma GetLocationWrappers_map (locations : list Actions.Location) :
  GetLocationWrappers locations = map wrap locations.
Proof. unfold GetLocationWrappers. now rewrite wrappers_from. Qed.

Lemma not_premium_ids (location : Actions.Location) :
  Actions.IsPremiumLocation location = false <->
  Actions.GetId location = Actions.Helsinki \/
  Actions.GetId location = Actions.Falkenstein.
Proof.
  unfold Actions.IsPremiumLocation.
  destruct (String.eqb_spec (Actions.GetId location) Actions.Helsinki);
    destruct (String.eqb_spec (Actions.GetId location) Actions.Falkenstein);
    cbn [orb]; try (split; auto; fail).
  split; [| tauto].
  destruct (String.eqb (Actions.GetId location) ""); discriminate.
Qed.

(** [GetLocationWrappers] gives one wrapper per location, in the order of
    the locations; the wrapper at a place holds the location of that place
    and is marked premium unless the id of the location is the Helsinki
    or the Falkenstein one. *)
Theorem wrappers_follow_locations (locations : list Actions.Location) :
  List.length (GetLocationWrappers locations) = List.length locations /\
  forall i w,
    nth_error (GetLocationWrappers locations) i = Some w ->
    nth_error locations i = Some (Location w) /\
    (Premium w = false <->
     Actions.GetId (Location w) = Actions.Helsinki \/
     Actions.GetId (Location w) = Actions.Falkenstein).
Proof.
  rewrite GetLocationWrappers_map. split; [apply length_map |].
  intros i w at_i. rewrite nth_error_map in at_i.
  destruct (nth_error locations i) as [l |]; [| discriminate].
  inversion at_i; subst w. cbn [Location Premium wrap].
  split; [reflexivity | apply not_premium_ids].
Qed.

Section WithLibrary.

Variable EqualFold : string -> string -> bool.
Variable uuidParse : string -> option string.

Lemma byId_finds_nothing (wrapped : list LocationWrapper) (id : string)
    (location : LocationWrapper) :
  snd (byId EqualFold wrapped id location false) = false.
Proof.
  induction wrapped as [| loc rest IH]; cbn [byId]; [reflexivity |].
  now destruct (EqualFold (Actions.GetId (Location location)) id).
Qed.

Lemma byName_found (wrapped : list LocationWrapper) (arg : string)
    (location0 location : LocationWrapper) :
  byName EqualFold wrapped arg location0 false = (location, true) ->
  exists before after,
    wrapped = (before ++ location :: after)%list /\
    EqualFold (Actions.Name (Location location)) arg = true /\
    forall w, In w before ->
              EqualFold (Actions.Name (Location w)) arg = false.
Proof.
  induction wrapped as [| loc rest IH]; cbn [byName]; [discriminate |].
  destruct (EqualFold (Actions.Name (Location loc)) arg) eqn:hit.
  - intros found. inversion found; subst loc.
    exists [], rest. repeat split; [exact hit | intros w []].
  - intros found. destruct (IH found) as [before [after [shape [named firsts]]]].
    exists (loc :: before), after. subst rest. repeat split; [exact named |].
    intros w [here | there]; [now subst w | now apply firsts].
Qed.

Lemma byName_missed (wrapped : list LocationWrapper) (arg : string)
    (location0 : LocationWrapper) :
  snd (byName EqualFold wrapped arg location0 false) = false <->
  forall w, In w wrapped -> EqualFold (Actions.Name (Location w)) arg = false.
Proof.
  induction wrapped as [| loc rest IH]; cbn [byName].
  - split; [intros _ w [] | reflexivity].
  - destruct (EqualFold (Actions.Name (Location loc)) arg) eqn:hit; cbn [snd].
    + split; [discriminate |]. intros none.
      rewrite (none loc (or_introl eq_refl)) in hit. discriminate.
    + rewrite IH. split.
      * intros none w [here | there]; [now subst w | now apply none].
      * intros none w there. apply none. now right.
Qed.

(** An argument that parses as a UUID never selects a location: the
    lookup leaves [found] false whatever the list holds, so [location
    set] stops at the latest with [no such location] and reaches neither
    the subscription test nor [UpdateDevice]. *)
Theorem uuid_argument_finds_nothing (arg id : string) :
  uuidParse arg = Some id ->
  (forall wrapped, snd (lookup EqualFold uuidParse wrapped arg) = false) /\
  (forall env,
      match locationSet EqualFold uuidParse env arg with
      | UpdateDevice _ | Unavailable => False
      | _ => True
      end) /\
  (forall env locations,
      signIn env = None -> statusUp env = false -> arg <> "" ->
      clientErr env = None -> getLocations env = inr locations ->
      locationSet EqualFold uuidParse env arg = NoSuchLocation arg).
Proof.
  intros parsed.
  assert (forall wrapped, snd (lookup EqualFold uuidParse wrapped arg) = false)
    as nothing.
  { intros wrapped. unfold lookup. rewrite parsed. apply byId_finds_nothing. }
  split; [exact nothing | split].
  - intros env. unfold locationSet.
    destruct (signIn env); [exact I |].
    destruct (statusUp env); [exact I |].
    destruct (String.length arg <? 1)%nat; [exact I |].
    destruct (clientErr env); [exact I |].
    destruct (getLocations env) as [e | locations]; [exact I |].
    specialize (nothing (GetLocationWrappers locations)).
    destruct (lookup EqualFold uuidParse (GetLocationWrappers locations) arg)
      as [location found].
    cbn [snd] in nothing. subst found. exact I.
  - intros env locations signed down named client listed.
    unfold locationSet. rewrite signed, down, client, listed.
    destruct arg as [| c arg']; [contradiction |].
    cbn [String.length Nat.ltb Nat.leb].
    specialize (nothing (GetLocationWrappers locations)).
    destruct (lookup EqualFold uuidParse (GetLocationWrappers locations)
                (String c arg')) as [location found].
    cbn [snd] in nothing. now subst found.
Qed.

(** When [location set] reaches [UpdateDevice], the argument did not
    parse as a UUID, the location is the first of the list whose name
    folds to the argument, the expiry date is not passed, and on the
    freemium bundle the location is the Helsinki or the Falkenstein one. *)
Theorem update_device_only_if (env : SetEnv) (arg locationId : string) :
  locationSet EqualFold uuidParse env arg = UpdateDevice locationId ->
  uuidParse arg = None /\
  exists locations before location after b,
    getLocations env = inr locations /\
    locations = (before ++ location :: after)%list /\
    EqualFold (Actions.Name location) arg = true /\
    (forall l, In l before -> EqualFold (Actions.Name l) arg = false) /\
    locationId = Actions.GetId location /\
    billing env = inr b /\
    now env <= ExpiryDate b /\
    (BundleId b = freemium ->
     Actions.GetId location = Actions.Helsinki \/
     Actions.GetId location = Actions.Falkenstein).
Proof.
  unfold locationSet.
  destruct (signIn env); [discriminate |].
  destruct (statusUp env); [discriminate |].
  destruct (String.length arg <? 1)%nat; [discriminate |].
  destruct (clientErr env); [discriminate |].
  destruct (getLocations env) as [e | locations]; [discriminate |].
  rewrite GetLocationWrappers_map. unfold lookup.
  destruct (uuidParse arg) as [id |].
  - pose proof (byId_finds_nothing (map wrap locations) id zeroWrapper)
      as nothing.
    destruct (byId EqualFold (map wrap locations) id zeroWrapper false)
      as [location found].
    cbn [snd] in nothing. subst found. discriminate.
  - destruct (byName EqualFold (map wrap locations) arg zeroWrapper false)
      as [location [|]] eqn:search; [| discriminate].
    cbn [negb].
    destruct (billing env) as [e | b]; [discriminate |].
    destruct (Premium location && String.eqb (BundleId b) freemium
              || After (LocationSet.now env) (ExpiryDate b))%bool eqn:gate;
      [discriminate |].
    destruct (loadDevice env); [discriminate |].
    intros reached. inversion reached. split; [reflexivity |].
    apply byName_found in search.
    destruct search as [before [after [shape [named firsts]]]].
    apply map_eq_app in shape.
    destruct shape as [lb [la [whole [pre post]]]].
    destruct la as [| l la]; [discriminate |].
    cbn [map] in post. inversion post; subst location.
    apply orb_false_iff in gate. destruct gate as [paid alive].
    exists locations, lb, l, la, b. cbn [Location] in *.
    repeat split; try assumption; try reflexivity.
    + intros l0 earlier. apply (firsts (wrap l0)). subst before.
      now apply in_map.
    + apply Z.ltb_ge in alive. exact alive.
    + intros free. apply not_premium_ids.
      rewrite free in paid. cbn [Premium wrap] in paid.
      now rewrite andb_true_r in paid.
Qed.

(** An argument that does not parse as a UUID is looked up by name:
    nothing is found exactly when no name of the list folds to it, and
    what is found is the first wrapper of the list whose name does. *)
Theorem name_argument_first_match (wrapped : list LocationWrapper)
    (arg : string) :
  uuidParse arg = None ->
  (snd (lookup EqualFold uuidParse wrapped arg) = false <->
   forall w, In w wrapped ->
             EqualFold (Actions.Name (Location w)) arg = false) /\
  (forall location,
      lookup EqualFold uuidParse wrapped arg = (location, true) ->
      exists before after,
        wrapped = (before ++ location :: after)%list /\
        EqualFold (Actions.Name (Location location)) arg = true /\
        forall w, In w before ->
                  EqualFold (Actions.Name (Location w)) arg = false).
Proof.
  intros by_name. unfold lookup. rewrite by_name. split.
  - apply byName_missed.
  - intros location. apply byName_found.
Qed.

End WithLibrary.

End LocationSetFacts.

Section LoginPick.

Import LocationSet.

Lemma free_set_from (wrapped : list LocationWrapper) :
  forall acc,
    fold_left
      (fun set loc => if negb (Premium loc) then (set ++ [loc])%list else set)
      wrapped acc
    = (acc ++ filter (fun loc => negb (Premium loc)) wrapped)%list.
Proof.
  induction wrapped as [| loc rest IH]; intros acc; cbn [fold_left filter].
  - now rewrite app_nil_r.
  - rewrite IH. destruct (negb (Premium loc)); [| reflexivity].
    now rewrite <- app_assoc.
Qed.

Lemma locationSetOf_free (wrapped : list LocationWrapper) :
  locationSetOf false wrapped = filter (fun loc => negb (Premium loc)) wrapped.
Proof. unfold locationSetOf. now rewrite free_set_from. Qed.

Lemma locationSetOf_length (isPremiumUser : bool)
    (wrapped : list LocationWrapper) :
  (List.length (locationSetOf isPremiumUser wrapped) <= List.length wrapped)%nat.
Proof.
  destruct isPremiumUser; [apply Nat.le_refl |].
  rewrite locationSetOf_free. apply filter_length_le.
Qed.

(** The pick of the first login panics exactly when there is nothing to
    draw from: no location at all for a premium user, no location that is
    not premium for any other; the index itself never leaves the list. *)
Theorem login_pick_panics_iff (isPremiumUser : bool)
    (wrapped : list LocationWrapper) (draw : nat) :
  (pickLocation isPremiumUser wrapped draw = None <->
   locationSetOf isPremiumUser wrapped = []) /\
  (locationSetOf isPremiumUser wrapped = [] <->
   if isPremiumUser then wrapped = []
   else forall loc, In loc wrapped -> Premium loc = true).
Proof.
  split.
  - unfold pickLocation, Intn.
    pose proof (locationSetOf_length isPremiumUser wrapped) as fits.
    destruct (locationSetOf isPremiumUser wrapped) as [| loc set];
      cbn [List.length] in *; [now split |].
    split; [| discriminate]. intros out. apply nth_error_None in out.
    pose proof (Nat.mod_upper_bound draw (S (List.length set))
                  (Nat.neq_succ_0 _)).
    lia.
  - destruct isPremiumUser; [reflexivity |].
    rewrite locationSetOf_free. induction wrapped as [| loc rest IH].
    + split; [intros _ loc [] | reflexivity].
    + cbn [filter]. destruct (Premium loc) eqn:paid; cbn [negb].
      * rewrite IH. split.
        -- intros all w [here | there]; [now subst w | now apply all].
        -- intros all w there. apply all. now right.
      * split; [discriminate |]. intros all.
        rewrite (all loc (or_introl eq_refl)) in paid. discriminate.
Qed.

(** The draw is bounded by the filtered set but indexes the list that
    was not filtered: for a user who is not premium, a premium location
    that stands among the first [k] of the list, [k] the number of
    locations that are not premium, is the pick of the draw of its
    place. *)
Theorem login_may_pick_premium (wrapped : list LocationWrapper)
    (place : nat) (loc : LocationWrapper) :
  nth_error wrapped place = Some loc ->
  Premium loc = true ->
  (place < List.length (filter (fun w => negb (Premium w)) wrapped))%nat ->
  pickLocation false wrapped place = Some loc /\
  ~ In loc (locationSetOf false wrapped).
Proof.
  intros here paid early. split.
  - unfold pickLocation, Intn. rewrite locationSetOf_free.
    destruct (List.length (filter (fun w => negb (Premium w)) wrapped))
      as [| k] eqn:size; [lia |].
    now rewrite Nat.mod_small by lia.
  - rewrite locationSetOf_free. intros inside.
    apply filter_In in inside. destruct inside as [_ free].
    rewrite paid in free. discriminate.
Qed.

End LoginPick.

(* ------------------------------------------------------------------ *)
(** ** The order given to [sort.Slice] *)

Section ListingFacts.

Import Listing.
Local Open Scope string_scope.

Lemma ascii_compare_refl (c : ascii) : Ascii.compare c c = Eq.
Proof. unfold Ascii.compare. apply N.compare_refl. Qed.

Lemma string_compare_refl (s : string) : String.compare s s = Eq.
Proof.
  induction s as [| c s IH]; cbn; [reflexivity |].
  now rewrite ascii_compare_refl.
Qed.

Lemma string_compare_trans (a : string) :
  forall b c,
    String.compare a b = Lt -> String.compare b c = Lt ->
    String.compare a c = Lt.
Proof.
  induction a as [| x a IH]; intros [| y b] [| z c]; cbn;
    try discriminate; try reflexivity.
  destruct (Ascii.compare x y) eqn:xy; destruct (Ascii.compare y z) eqn:yz;
    try discriminate.
  - apply Ascii.compare_eq_iff in xy, yz. subst.
    rewrite ascii_compare_refl. apply IH.
  - apply Ascii.compare_eq_iff in xy. subst. now rewrite yz.
  - apply Ascii.compare_eq_iff in yz. subst. now rewrite xy.
  - intros _ _. unfold Ascii.compare in *.
    apply N.compare_lt_iff in xy, yz.
    replace (N.compare (N_of_ascii x) (N_of_ascii z)) with Lt;
      [reflexivity |].
    symmetry. apply N.compare_lt_iff. now apply N.lt_trans with (N_of_ascii y).
Qed.

Lemma ltb_irrefl (s : string) : String.ltb s s = false.
Proof. unfold String.ltb. now rewrite string_compare_refl. Qed.

Lemma ltb_lt (a b : string) : String.ltb a b = true <-> String.compare a b = Lt.
Proof.
  unfold String.ltb. destruct (String.compare a b); split;
    congruence.
Qed.

Lemma ltb_trans (a b c : string) :
  String.ltb a b = true -> String.ltb b c = true -> String.ltb a c = true.
Proof.
  rewrite !ltb_lt. apply string_compare_trans.
Qed.

Lemma ltb_asym (a b : string) :
  String.ltb a b = true -> String.ltb b a = false.
Proof.
  intros ab. destruct (String.ltb b a) eqn:ba; [| reflexivity].
  pose proof (ltb_trans a b a ab ba) as aa.
  now rewrite ltb_irrefl in aa.
Qed.

(** The comparison of [sortLocations] never puts a location before
    itself, never orders two locations both ways, and is transitive; but
    it leaves two locations unordered as soon as they share the city name
    or the country name, and being unordered is not transitive, so it is
    not the kind of order a sort can rely on. *)
Theorem less_orders_partially :
  (forall a, less a a = false) /\
  (forall a b, less a b = true -> less b a = false) /\
  (forall a b c, less a b = true -> less b c = true -> less a c = true) /\
  (forall a b,
      PlaceName a = PlaceName b \/ CountryName a = CountryName b ->
      less a b = false /\ less b a = false) /\
  (exists a b c,
      less a b = false /\ less b a = false /\
      less b c = false /\ less c b = false /\ less a c = true).
Proof.
  unfold less. split; [| split; [| split; [| split]]].
  - intros a. now rewrite ltb_irrefl.
  - intros a b ab. apply andb_true_iff in ab. destruct ab as [names _].
    now rewrite (ltb_asym _ _ names).
  - intros a b c ab bc. apply andb_true_iff in ab, bc.
    destruct ab as [n1 c1], bc as [n2 c2]. apply andb_true_iff. split.
    + exact (ltb_trans _ _ _ n1 n2).
    + exact (ltb_trans _ _ _ c1 c2).
  - intros a b [same | same]; rewrite same, ltb_irrefl;
      (split; [reflexivity || apply andb_false_r
              | reflexivity || apply andb_false_r]).
  - exists {| PlaceName := "Berlin"; CountryName := "Germany" |},
           {| PlaceName := "Zurich"; CountryName := "Germany" |},
           {| PlaceName := "Paris"; CountryName := "Italy" |}.
    repeat split.
Qed.

End ListingFacts.

(* ------------------------------------------------------------------ *)
(** ** Splitting and joining the messages *)

Section CliFacts.

Import GoStrings GoSplit Cli.
Local Open Scope string_scope.

Lemma splitFrom_cons (s : string) (sep : ascii) (cur : string) :
  exists first pieces, splitFrom s sep cur = first :: pieces.
Proof.
  revert cur. induction s as [| c s IH]; intros cur; cbn [splitFrom].
  - now exists cur, [].
  - destruct (Ascii.eqb c sep); [now eexists; eexists | apply IH].
Qed.

Lemma concat_cons (sep x : string) (y : string) (l : list string) :
  String.concat sep (x :: y :: l) = x ++ sep ++ String.concat sep (y :: l).
Proof. reflexivity. Qed.

(** Joining the pieces with the separator gives the text back. *)
Lemma concat_splitFrom (s : string) (sep : ascii) :
  forall cur,
    String.concat (String sep "") (splitFrom s sep cur) = cur ++ s.
Proof.
  induction s as [| c s IH]; intros cur; cbn [splitFrom].
  - cbn [String.concat]. now rewrite append_empty.
  - destruct (Ascii.eqb_spec c sep) as [is_sep | other].
    + destruct (splitFrom_cons s sep "") as [first [pieces shape]].
      specialize (IH ""). rewrite shape in *. rewrite concat_cons, IH.
      now subst c.
    + rewrite IH, append_assoc. reflexivity.
Qed.

Lemma length_splitFrom (s : string) (sep : ascii) :
  forall cur, List.length (splitFrom s sep cur) = S (CountByte s sep).
Proof.
  induction s as [| c s IH]; intros cur; cbn [splitFrom CountByte].
  - reflexivity.
  - destruct (Ascii.eqb c sep); cbn [List.length]; now rewrite IH.
Qed.

Lemma CountByte_app (a b : string) (sep : ascii) :
  CountByte (a ++ b) sep = (CountByte a sep + CountByte b sep)%nat.
Proof.
  induction a as [| c a IH]; cbn [append CountByte]; [reflexivity |].
  rewrite IH. apply Nat.add_assoc.
Qed.

(** Up to the first separator nothing is cut. *)
Lemma splitFrom_plain (a : string) (sep : ascii) :
  CountByte a sep = 0%nat ->
  forall rest cur,
    splitFrom (a ++ rest) sep cur = splitFrom rest sep (cur ++ a).
Proof.
  induction a as [| c a IH]; cbn [append CountByte splitFrom].
  - intros _ rest cur. now rewrite append_empty.
  - destruct (Ascii.eqb c sep); [discriminate |]. cbn [Nat.add].
    intros plain rest cur. rewrite IH by exact plain.
    now rewrite append_assoc.
Qed.

Lemma first_piece_plain (s : string) (sep : ascii) :
  forall cur first pieces,
    CountByte cur sep = 0%nat ->
    splitFrom s sep cur = first :: pieces ->
    CountByte first sep = 0%nat.
Proof.
  induction s as [| c s IH]; intros cur first pieces plain; cbn [splitFrom].
  - intros shape. now inversion shape; subst.
  - destruct (Ascii.eqb c sep) eqn:is_sep.
    + intros shape. now inversion shape; subst.
    + apply IH. rewrite CountByte_app, plain. cbn [CountByte].
      now rewrite is_sep.
Qed.

(** What [main] prints of an error is its text with the first word, the
    part before the first blank, put through the title caser; the rest,
    from that blank on, is printed as it is.  The empty text has a first
    word too (the empty one), so [msg[0]] never panics. *)
Theorem render_changes_first_word (title : string -> string)
    (text : string) :
  exists first rest,
    text = first ++ rest /\
    CountByte first " " = 0%nat /\
    (rest = "" \/ exists r, rest = String " " r) /\
    render title text = Some (title first ++ rest).
Proof.
  unfold render, SplitByte, Join.
  destruct (splitFrom_cons text " " "") as [first [pieces shape]].
  pose proof (concat_splitFrom text " " "") as back.
  pose proof (first_piece_plain text " " "" first pieces eq_refl shape)
    as plain.
  rewrite shape in *. cbn [append] in back.
  exists first.
  destruct pieces as [| second pieces].
  - exists "". cbn [String.concat] in *. rewrite !append_empty.
    repeat split; [now symmetry | exact plain | now left].
  - exists (" " ++ String.concat " " (second :: pieces)).
    rewrite concat_cons in back. rewrite concat_cons.
    repeat split; [now symmetry | exact plain |].
    right. now eexists.
Qed.

(** [account status] takes the third piece of the bundle id between
    dots: it panics (index out of range) exactly when the id has fewer
    than two dots, and of [a.b.c], with or without more pieces behind,
    it takes [c]. *)
Theorem plan_part_needs_two_dots :
  (forall bundleId,
      planPart bundleId = None <-> (CountByte bundleId "." < 2)%nat) /\
  (forall a b c tail,
      CountByte a "." = 0%nat -> CountByte b "." = 0%nat ->
      CountByte c "." = 0%nat ->
      tail = "" \/ (exists t, tail = String "." t) ->
      planPart (a ++ "." ++ b ++ "." ++ c ++ tail) = Some c).
Proof.
  split.
  - intros bundleId. unfold planPart, SplitByte.
    rewrite nth_error_None, length_splitFrom. lia.
  - intros a b c tail pa pb pc ends. unfold planPart, SplitByte.
    rewrite splitFrom_plain by exact pa. cbn [append splitFrom Ascii.eqb Bool.eqb].
    rewrite splitFrom_plain by exact pb. cbn [append splitFrom Ascii.eqb Bool.eqb].
    rewrite splitFrom_plain by exact pc. cbn [nth_error append].
    destruct ends as [none | [t more]]; subst tail; reflexivity.
Qed.

End CliFacts.

(* ------------------------------------------------------------------ *)
(** ** Lookups and picks at concrete inputs *)

Section LocationCases.

Import GoTime Fvpn LocationSet Samples MoreSamples.
Local Open Scope string_scope.
Local Open Scope Z_scope.

Lemma uuid_argument_finds_nothing_witness :
  snd (lookup sameText parse36 (GetLocationWrappers [oslo; helsinki])
         Actions.Helsinki) = false.
Proof.
  exact (proj1 (uuid_argument_finds_nothing sameText parse36
                  Actions.Helsinki Actions.Helsinki eq_refl)
           (GetLocationWrappers [oslo; helsinki])).
Defined.

Lemma update_device_only_if_witness :
  locationSet sameText parse36 freeAccount "Helsinki"
    = UpdateDevice Actions.Helsinki /\
  parse36 "Helsinki" = None.
Proof.
  split; [reflexivity |].
  exact (proj1 (update_device_only_if sameText parse36 freeAccount
                  "Helsinki" Actions.Helsinki eq_refl)).
Defined.

Lemma name_argument_first_match_witness :
  snd (lookup sameText parse36 (GetLocationWrappers [oslo; helsinki]) "Bergen")
    = false <->
  forall w, In w (GetLocationWrappers [oslo; helsinki]) ->
            sameText (Actions.Name (Location w)) "Bergen" = false.
Proof.
  exact (proj1 (name_argument_first_match sameText parse36
                  (GetLocationWrappers [oslo; helsinki]) "Bergen" eq_refl)).
Defined.

Lemma login_may_pick_premium_witness :
  pickLocation false (GetLocationWrappers [oslo; helsinki]) 0
    = Some (wrap oslo) /\
  ~ In (wrap oslo) (locationSetOf false (GetLocationWrappers [oslo; helsinki])).
Proof.
  apply (login_may_pick_premium (GetLocationWrappers [oslo; helsinki]) 0
           (wrap oslo)).
  - reflexivity.
  - reflexivity.
  - cbn. lia.
Defined.

End LocationCases.

(* ------------------------------------------------------------------ *)
(** ** Verbs taken for known ones *)

Section MisreadVerbs.

Import GoStrings Exec Forestd Connection Samples.
Local Open Scope string_scope.
Local Open Scope Z_scope.

(** A verb that is neither [connect] nor [disconnect] but occurs in the
    joined known actions, sent with a further token, is taken for a known
    one at any point of a connection.  No command is built for it: with no
    command run before on the connection the handler panics on the nil
    command; otherwise [execute] runs once more on the command of the
    last bring-up or bring-down, and its status is the answer. *)
Theorem misread_verb_reuses_command (P : Proto) (envs : list Env)
    (t : list Event) (v : Vars) (e : Env) (content : string)
    (err : option ReadError) (verb cfg : string) (more : list string) :
  handleRequest P envs = (t, Reading v) ->
  read_res e = (content, err) ->
  content <> QUIT_SIGN P ->
  Fields content = verb :: cfg :: more ->
  Contains (Join (knownAfter (S (List.length envs))) "") verb = true ->
  verb <> "connect" -> verb <> "disconnect" ->
  pass P v e =
    match command v with
    | None =>
      ((logIf (option_map readErrorText err)
        ++ [Log (LogIncoming verb); Log (LogMethodFound verb);
            Panic "invalid memory address or nil pointer dereference"])%list,
       Panicked)
    | Some c =>
      let ran := execute c (world e) in
      ((logIf (option_map readErrorText err)
        ++ Log (LogIncoming verb) :: Log (LogMethodFound verb)
           :: Log (LogExecuting (Args c))
           :: fst (fst ran)
        ++ Log (LogResponding (snd (fst ran)))
           :: ConnWrite (response P (snd (fst ran))) (write_err e)
           :: logIf (write_err e))%list,
       Next {| command := Some (snd ran);
               knownActions := knownAfter (S (List.length envs));
               status := snd (fst ran); config := cfg |})
    end.
Proof.
  intros history read open fields joined not_up not_down.
  apply known_actions_so_far in history.
  unfold pass. rewrite read. apply String.eqb_neq in open. rewrite open.
  unfold dispatch. rewrite fields, history, knownAfter_snoc, joined.
  cbn [List.length Nat.ltb Nat.leb andb].
  change (knownAfter (S (List.length envs)))
    with ("connect" :: "disconnect" :: knownAfter (List.length envs)).
  cbn [nth].
  apply String.eqb_neq in not_up, not_down. rewrite not_up, not_down.
  destruct (command v) as [c |]; [| reflexivity].
  destruct (execute c (world e)) as [[evs st] c']. reflexivity.
Qed.

Lemma misread_verb_reuses_command_witness :
  pass lineProto initial (frame "tdis wg0") =
    ([Log (LogIncoming "tdis"); Log (LogMethodFound "tdis");
      Panic "invalid memory address or nil pointer dereference"],
     Panicked).
Proof.
  apply (misread_verb_reuses_command lineProto []
           (fst (handleRequest lineProto [])) initial (frame "tdis wg0")
           "tdis wg0" None "tdis" "wg0" []).
  - reflexivity.
  - reflexivity.
  - discriminate.
  - reflexivity.
  - reflexivity.
  - discriminate.
  - discriminate.
Defined.

End MisreadVerbs.

(* ------------------------------------------------------------------ *)
(** ** The [state up] action from its first line *)

Section StateUpFacts.

Import GoTime Fvpn StateUp.


End StateUpFacts.
